(** * Analytics hub: ingestion, rate limiting, key lifecycle and summaries

    A shallow embedding of the four edge functions of the repository
    (analytics-collect, analytics-event-summary, auth-register, auth-revoke)
    and of the runtime services they call, followed by the properties of the
    ingestion pipeline, of the rate limiter, of the key lifecycle and of the
    aggregation code.

    Conventions.
    - A JavaScript string is modelled by a [string], read as the sequence of
      its UTF-8 bytes (what [TextEncoder.encode] returns).
    - A JavaScript number that holds an integer (a counter, a time in
      milliseconds since the epoch) is a [Z].
    - A column of type [TIMESTAMP WITH TIME ZONE] holds an instant, modelled
      as its number of milliseconds since the epoch; the ISO string that
      [toISOString] produces denotes that instant.
    - A nullable column or an optional field is an [option].  The column
      [api_keys.is_active], which the handlers only ever write as [true] or
      [false], is a [bool].
    - What the outside world answers during one request (the clock at each
      reading, the caller that the authentication service resolves, the
      identities and the random key that are generated, whether a call to
      the store succeeds) is an input of the handler, its [IO] record. *)

From Stdlib Require Import ZArith List Ascii String Lia Bool.
From stdpp Require Import base gmap strings list fin_maps.
Import ListNotations.
Local Open Scope string_scope.
Local Open Scope list_scope.
Local Open Scope Z_scope.

(** ** The runtime: SHA-256 as computed by [crypto.subtle.digest] *)

Module SHA256.

Definition add32 (x y : Z) : Z := (x + y) mod 2 ^ 32.

Definition rotr (n x : Z) : Z :=
  Z.lor (Z.shiftr x n) (Z.shiftl x (32 - n) mod 2 ^ 32).

Definition not32 (x : Z) : Z := Z.lxor x (2 ^ 32 - 1).

(** The round constants are the first 32 bits of the fractional parts of
    the cube roots of the first 64 primes, the initial state those of the
    square roots of the first 8 primes. *)
Definition is_prime (p : Z) : bool :=
  forallb (fun d => negb (p mod Z.of_nat d =? 0)) (seq 2 (Z.to_nat p - 2)).

Definition primes : list Z :=
  List.filter is_prime (List.map Z.of_nat (seq 2 310)).

Fixpoint cbrt_bits (n : nat) (N r : Z) : Z :=
  match n with
  | O => r
  | S n' =>
      let c := r + 2 ^ Z.of_nat n' in
      cbrt_bits n' N (if c * c * c <=? N then c else r)
  end.

Definition K : list Z :=
  Eval vm_compute in
    List.map (fun p => cbrt_bits 36 (p * 2 ^ 96) 0 mod 2 ^ 32) primes.

Definition H0 : list Z :=
  Eval vm_compute in
    List.map (fun p => Z.sqrt (p * 2 ^ 64) mod 2 ^ 32) (firstn 8 primes).

Definition be32 (bs : list Z) : Z :=
  fold_left (fun acc b => acc * 256 + b) bs 0.

Definition bytes_be (n : nat) (x : Z) : list Z :=
  List.map (fun i => Z.shiftr x (8 * Z.of_nat i) mod 256) (rev (seq 0 n)).

Definition pad (msg : list Z) : list Z :=
  let l := Z.of_nat (length msg) in
  msg ++ [128] ++ repeat 0 (Z.to_nat ((55 - l) mod 64)) ++ bytes_be 8 (8 * l).

Fixpoint chunks (fuel n : nat) (bs : list Z) : list (list Z) :=
  match fuel with
  | O => []
  | S fuel' =>
      match bs with
      | [] => []
      | _ => firstn n bs :: chunks fuel' n (skipn n bs)
      end
  end.

Definition sigma0 (x : Z) : Z :=
  Z.lxor (Z.lxor (rotr 7 x) (rotr 18 x)) (Z.shiftr x 3).
Definition sigma1 (x : Z) : Z :=
  Z.lxor (Z.lxor (rotr 17 x) (rotr 19 x)) (Z.shiftr x 10).
Definition Sigma0 (x : Z) : Z :=
  Z.lxor (Z.lxor (rotr 2 x) (rotr 13 x)) (rotr 22 x).
Definition Sigma1 (x : Z) : Z :=
  Z.lxor (Z.lxor (rotr 6 x) (rotr 11 x)) (rotr 25 x).
Definition Ch (e f g : Z) : Z :=
  Z.lxor (Z.land e f) (Z.land (not32 e) g).
Definition Maj (a b c : Z) : Z :=
  Z.lxor (Z.lxor (Z.land a b) (Z.land a c)) (Z.land b c).

(** The message schedule, most recent word first. *)
Fixpoint schedule (n : nat) (rw : list Z) : list Z :=
  match n with
  | O => rw
  | S n' =>
      let w i := nth i rw 0 in
      schedule n'
        (add32 (add32 (w 15%nat) (sigma0 (w 14%nat)))
               (add32 (w 6%nat) (sigma1 (w 1%nat))) :: rw)
  end.

Definition words (block : list Z) : list Z :=
  List.map be32 (chunks 16 4 block).

Definition round (s : list Z) (kw : Z * Z) : list Z :=
  match s with
  | [a; b; c; d; e; f; g; h] =>
      let t1 := add32 (add32 (add32 h (Sigma1 e)) (Ch e f g))
                      (add32 (fst kw) (snd kw)) in
      let t2 := add32 (Sigma0 a) (Maj a b c) in
      [add32 t1 t2; a; b; c; add32 d t1; e; f; g]
  | _ => s
  end.

Definition compress (h : list Z) (block : list Z) : list Z :=
  let w := rev (schedule 48 (rev (words block))) in
  let s := fold_left round (combine K w) h in
  List.map (fun p => add32 (fst p) (snd p)) (combine h s).

Definition digest (msg : list Z) : list Z :=
  let p := pad msg in
  concat (List.map (bytes_be 4)
            (fold_left compress (chunks (length p) 64 p) H0)).

End SHA256.

(** ** Strings and bytes *)

(** [new TextEncoder().encode(s)]: the bytes of the string. *)
Definition TextEncoder_encode (s : string) : list Z :=
  List.map (fun c => Z.of_N (N_of_ascii c)) (list_ascii_of_string s).

Definition hex_digit (d : Z) : ascii :=
  nth (Z.to_nat d) (list_ascii_of_string "0123456789abcdef") "0"%char.

(** [b.toString(16).padStart(2, '0')] for a byte [b]. *)
Definition hex2 (b : Z) : string :=
  String (hex_digit (b / 16)) (String (hex_digit (b mod 16)) EmptyString).

(** [hashApiKey]: the SHA-256 digest of the encoded key, in lower-case hex. *)
Definition hashApiKey (apiKey : string) : string :=
  let data := TextEncoder_encode apiKey in
  let hashArray := SHA256.digest data in
  String.concat "" (List.map hex2 hashArray).

(** [crypto.randomUUID().replace(/-/g, '')] *)
Fixpoint remove_dashes (s : string) : string :=
  match s with
  | EmptyString => EmptyString
  | String c s' =>
      if Ascii.eqb c "-"%char then remove_dashes s'
      else String c (remove_dashes s')
  end.

(** ** The runtime: dates

    [new Date(s)] parses a string to an instant or yields an invalid date.
    The handlers are parametrised by that parser ([Date_parse] below).  For
    runs on concrete requests, [ISODate.parse] reads the UTC form
    [YYYY-MM-DDTHH:mm:ss(.sss)Z] of the ECMAScript date-time format, the form
    [toISOString] writes; it rejects every other string. *)

Module ISODate.

Definition digit (c : ascii) : option Z :=
  let n := Z.of_N (N_of_ascii c) in
  if (48 <=? n) && (n <=? 57) then Some (n - 48) else None.

Fixpoint number (cs : list ascii) (acc : Z) : option Z :=
  match cs with
  | [] => Some acc
  | c :: cs' => d ← digit c; number cs' (acc * 10 + d)
  end.

Definition field (s : string) (i n : nat) : option Z :=
  number (list_ascii_of_string (substring i n s)) 0.

Definition days_from_civil (y m d : Z) : Z :=
  let y' := if m <=? 2 then y - 1 else y in
  let era := y' / 400 in
  let yoe := y' - era * 400 in
  let doy := (153 * (if m >? 2 then m - 3 else m + 9) + 2) / 5 + d - 1 in
  let doe := yoe * 365 + yoe / 4 - yoe / 100 + doy in
  era * 146097 + doe - 719468.

Definition parse (s : string) : option Z :=
  let sep i c := String.eqb (substring i 1 s) c in
  let n := String.length s in
  if sep 4%nat "-" && sep 7%nat "-" && sep 10%nat "T"
     && sep 13%nat ":" && sep 16%nat ":"
     && (((n =? 20)%nat && sep 19%nat "Z")
         || ((n =? 24)%nat && sep 19%nat "." && sep 23%nat "Z"))
  then
    y ← field s 0 4; mo ← field s 5 2; d ← field s 8 2;
    h ← field s 11 2; mi ← field s 14 2; se ← field s 17 2;
    ms ← (if (n =? 24)%nat then field s 20 3 else Some 0);
    if (1 <=? mo) && (mo <=? 12) && (1 <=? d) && (d <=? 31)
       && (h <=? 23) && (mi <=? 59) && (se <=? 59)
    then Some ((((days_from_civil y mo d * 24 + h) * 60 + mi) * 60 + se)
               * 1000 + ms)
    else None
  else None.

End ISODate.

(** ** JavaScript values *)

(** Truthiness of an optional string: [undefined], [null] and the empty
    string are falsy. *)
Definition truthy (v : option string) : bool :=
  match v with
  | Some s => negb (String.eqb s "")
  | None => false
  end.

(** [v || null] for an optional string. *)
Definition or_null (v : option string) : option string :=
  if truthy v then v else None.

Inductive JsValue :=
| JsUndefined
| JsNumber (n : Z)
| JsString (s : string)
| JsFunction (name : string)
| JsPrototype.

(** The function-valued properties every plain object inherits from
    [Object.prototype], with the name of the function each one holds. *)
Definition Object_prototype_functions : list (string * string) :=
  [ ("constructor", "Object");
    ("__defineGetter__", "__defineGetter__");
    ("__defineSetter__", "__defineSetter__");
    ("hasOwnProperty", "hasOwnProperty");
    ("__lookupGetter__", "__lookupGetter__");
    ("__lookupSetter__", "__lookupSetter__");
    ("isPrototypeOf", "isPrototypeOf");
    ("propertyIsEnumerable", "propertyIsEnumerable");
    ("toString", "toString");
    ("valueOf", "valueOf");
    ("toLocaleString", "toLocaleString") ].

Fixpoint assoc (k : string) (l : list (string * string)) : option string :=
  match l with
  | [] => None
  | (k', v) :: l' => if String.eqb k k' then Some v else assoc k l'
  end.

(** What the runtime provides.  [proto_accessor] tells whether
    [Object.prototype] carries the legacy [__proto__] accessor (the language
    standard has it, some runtimes delete it at start-up). *)
Record Runtime := {
  Date_parse : string -> option Z;
  proto_accessor : bool
}.

(** A plain object [{}] used as a dictionary: its own properties. *)
Abbreviation JsObject := (gmap string JsValue).

(** Is [k] a property that a plain object inherits? *)
Definition inherited (rt : Runtime) (k : string) : bool :=
  match assoc k Object_prototype_functions with
  | Some _ => true
  | None => String.eqb k "__proto__" && proto_accessor rt
  end.

(** [o[k]] *)
Definition js_get (rt : Runtime) (o : JsObject) (k : string) : JsValue :=
  if String.eqb k "__proto__" && proto_accessor rt then JsPrototype
  else
    match o !! k with
    | Some v => v
    | None =>
        match assoc k Object_prototype_functions with
        | Some f => JsFunction f
        | None => JsUndefined
        end
    end.

(** [o[k] = v] for a primitive [v]: the [__proto__] setter ignores it. *)
Definition js_set (rt : Runtime) (o : JsObject) (k : string) (v : JsValue)
  : JsObject :=
  if String.eqb k "__proto__" && proto_accessor rt then o
  else <[k := v]> o.

(** [(v || 0) + 1] *)
Definition or_zero_plus_one (v : JsValue) : JsValue :=
  match v with
  | JsUndefined => JsNumber 1
  | JsNumber n => JsNumber (n + 1)
  | JsString s => if String.eqb s "" then JsNumber 1 else JsString (s +:+ "1")
  | JsFunction f => JsString ("function " +:+ f +:+ "() { [native code] }1")
  | JsPrototype => JsString "[object Object]1"
  end.

(** ** The relational store

    One module per table of the migration; a table is the list of its rows.
    Columns that no edge function reads or writes after insertion
    ([created_at], [updated_at], the generated identity of an event) are left
    out. *)

Module apps.
Record row := {
  id : string;
  user_id : string;
  name : string;
  domain : string;
  description : option string
}.
End apps.

Module api_keys.
Record row := {
  id : string;
  app_id : string;
  user_id : string;
  key_hash : string;
  key_prefix : string;
  is_active : bool;
  expires_at : option Z;
  last_used_at : option Z;
  revoked_at : option Z
}.
End api_keys.

(** The [metadata] of a payload; its free-form extra keys are left out. *)
Record Metadata := {
  browser : option string;
  os : option string;
  screenSize : option string
}.

Module analytics_events.
Record row := {
  app_id : string;
  event : string;
  url : string;
  referrer : option string;
  device : option string;
  ip_address : option string;
  user_agent : option string;
  browser : option string;
  os : option string;
  screen_size : option string;
  metadata : option Metadata;
  timestamp : Z
}.
End analytics_events.

Record Store := {
  apps_table : list apps.row;
  api_keys_table : list api_keys.row;
  analytics_events_table : list analytics_events.row
}.

(** [.single()]: the rows of the query when there is exactly one, an error
    otherwise. *)
Definition single {A} (rows : list A) : option A :=
  match rows with
  | [r] => Some r
  | _ => None
  end.

(** [api_keys.key_hash] is [UNIQUE] and [id] is the primary key: the store
    refuses a row that repeats either. *)
Definition api_keys_insert (r : api_keys.row) (db : Store) : option Store :=
  if existsb (fun r' => String.eqb (api_keys.key_hash r') (api_keys.key_hash r)
                        || String.eqb (api_keys.id r') (api_keys.id r))
       (api_keys_table db)
  then None
  else Some {| apps_table := apps_table db;
               api_keys_table := api_keys_table db ++ [r];
               analytics_events_table := analytics_events_table db |}.

Definition apps_insert (r : apps.row) (db : Store) : option Store :=
  if existsb (fun r' => String.eqb (apps.id r') (apps.id r)) (apps_table db)
  then None
  else Some {| apps_table := apps_table db ++ [r];
               api_keys_table := api_keys_table db;
               analytics_events_table := analytics_events_table db |}.

Definition analytics_events_insert (r : analytics_events.row) (db : Store)
  : Store :=
  {| apps_table := apps_table db;
     api_keys_table := api_keys_table db;
     analytics_events_table := analytics_events_table db ++ [r] |}.

(** [UPDATE api_keys SET ... WHERE p] *)
Definition api_keys_update (p : api_keys.row -> bool)
    (f : api_keys.row -> api_keys.row) (db : Store) : Store :=
  {| apps_table := apps_table db;
     api_keys_table :=
       List.map (fun r => if p r then f r else r) (api_keys_table db);
     analytics_events_table := analytics_events_table db |}.

(** ** Responses *)

Inductive Body :=
| Null
| Error (error : string)
| Collected (success : bool) (message : string)
| Registered (id name domain : string) (description : option string)
    (apiKey : string)
| Message (message : string)
| Summary (event : string) (count : nat) (uniqueUsers : nat)
    (deviceData : JsObject).

Record Response := { status : Z; body : Body }.

Definition respond (code : Z) (b : Body) : Response :=
  {| status := code; body := b |}.

(** The [catch] clause shared by the four handlers. *)
Definition internal_error : Response :=
  respond 500 (Error "Internal server error").

(** The other responses that the properties below name. *)
Definition accepted : Response :=
  respond 200 (Collected true "Event collected successfully").

Definition rate_limited : Response :=
  respond 429 (Error "Rate limit exceeded. Maximum 100 requests per minute.").

Definition invalid_key : Response := respond 401 (Error "Invalid API key").
Definition revoked_key : Response :=
  respond 401 (Error "API key has been revoked").
Definition expired_key : Response :=
  respond 401 (Error "API key has expired").
Definition missing_key : Response :=
  respond 401 (Error "Missing x-api-key header").

Definition revoked_ack : Response :=
  respond 200 (Message "API key revoked successfully").

Definition not_found : Response :=
  respond 404 (Error "App not found or unauthorized").

(** ** analytics-collect: the ingestion handler and its rate limiter *)

Module analytics_collect.

Record AnalyticsEvent := {
  event : option string;
  url : option string;
  referrer : option string;
  device : option string;
  ipAddress : option string;
  timestamp : option string;
  metadata : option Metadata
}.

(** An entry of [rateLimitMap]. *)
Record Window := { count : Z; resetAt : Z }.

Definition RATE_LIMIT : Z := 100.
Definition RATE_LIMIT_WINDOW : Z := 60000.

(** [checkRateLimit], with [now] the value of [Date.now()]: the verdict and
    the map after the call. *)
Definition checkRateLimit (now : Z) (apiKeyHash : string)
    (rateLimitMap : gmap string Window) : bool * gmap string Window :=
  let reset :=
    (true, <[apiKeyHash := {| count := 1;
                              resetAt := now + RATE_LIMIT_WINDOW |}]>
             rateLimitMap) in
  match rateLimitMap !! apiKeyHash with
  | None => reset
  | Some record =>
      if now >? resetAt record then reset
      else if count record >=? RATE_LIMIT then (false, rateLimitMap)
      else (true, <[apiKeyHash := {| count := count record + 1;
                                     resetAt := resetAt record |}]>
                    rateLimitMap)
  end.

(** The state the handler works on: the module-level map and the store. *)
Record State := {
  rateLimitMap : gmap string Window;
  db : Store
}.

Record Request := {
  method : string;
  x_api_key : option string;          (* req.headers.get('x-api-key') *)
  user_agent : option string;         (* req.headers.get('user-agent') *)
  json : option AnalyticsEvent        (* req.json(); None when it throws *)
}.

(** What the outside world answers during one request: the clock at each
    reading, and whether each call to the store succeeds. *)
Record IO := {
  now_limit : Z;       (* Date.now() in checkRateLimit *)
  now_expiry : Z;      (* new Date() in the expiry test *)
  now_event : Z;       (* new Date() for an event without timestamp *)
  now_used : Z;        (* new Date() for last_used_at *)
  select_ok : bool;
  insert_ok : bool;
  update_ok : bool
}.

(** Lines 86-113, "Verify API key and get app_id": the key of that hash,
    or the response that rejects the request. *)
Definition verify_api_key (io : IO) (keyHash : string) (db : Store)
  : Response + api_keys.row :=
  let rows :=
    List.filter (fun r => String.eqb (api_keys.key_hash r) keyHash)
      (api_keys_table db) in
  match (if select_ok io then single rows else None) with
  | None => inl (respond 401 (Error "Invalid API key"))
  | Some apiKeyRecord =>
      if negb (api_keys.is_active apiKeyRecord) then
        inl (respond 401 (Error "API key has been revoked"))
      else if match api_keys.expires_at apiKeyRecord with
              | Some expires_at => expires_at <? now_expiry io
              | None => false
              end then
        inl (respond 401 (Error "API key has expired"))
      else inr apiKeyRecord
  end.

(** The [timestamp] of the inserted row; [None] when [toISOString] throws
    on an invalid date. *)
Definition event_timestamp (rt : Runtime) (io : IO) (eventData : AnalyticsEvent)
  : option Z :=
  if truthy (timestamp eventData) then
    match timestamp eventData with
    | Some s => Date_parse rt s
    | None => None
    end
  else Some (now_event io).

Definition new_row (apiKeyRecord : api_keys.row) (req : Request)
    (eventData : AnalyticsEvent) (ts : Z) : analytics_events.row :=
  {| analytics_events.app_id := api_keys.app_id apiKeyRecord;
     analytics_events.event := default "" (event eventData);
     analytics_events.url := default "" (url eventData);
     analytics_events.referrer := or_null (referrer eventData);
     analytics_events.device := or_null (device eventData);
     analytics_events.ip_address := or_null (ipAddress eventData);
     analytics_events.user_agent := or_null (user_agent req);
     analytics_events.browser := or_null (metadata eventData ≫= browser);
     analytics_events.os := or_null (metadata eventData ≫= os);
     analytics_events.screen_size :=
       or_null (metadata eventData ≫= screenSize);
     analytics_events.metadata := metadata eventData;
     analytics_events.timestamp := ts |}.

(** [update({ last_used_at: ... })] *)
Definition touch (now : Z) (r : api_keys.row) : api_keys.row :=
  {| api_keys.id := api_keys.id r;
     api_keys.app_id := api_keys.app_id r;
     api_keys.user_id := api_keys.user_id r;
     api_keys.key_hash := api_keys.key_hash r;
     api_keys.key_prefix := api_keys.key_prefix r;
     api_keys.is_active := api_keys.is_active r;
     api_keys.expires_at := api_keys.expires_at r;
     api_keys.last_used_at := Some now;
     api_keys.revoked_at := api_keys.revoked_at r |}.

Definition with_db (st : State) (db' : Store) : State :=
  {| rateLimitMap := rateLimitMap st; db := db' |}.

(** The handler passed to [Deno.serve]. *)
Definition serve (rt : Runtime) (io : IO) (req : Request) (st : State)
  : Response * State :=
  if String.eqb (method req) "OPTIONS" then (respond 200 Null, st)
  else if negb (truthy (x_api_key req)) then
    (respond 401 (Error "Missing x-api-key header"), st)
  else
    let apiKey := default "" (x_api_key req) in
    let keyHash := hashApiKey apiKey in
    let (admitted, limits) :=
      checkRateLimit (now_limit io) keyHash (rateLimitMap st) in
    let st := {| rateLimitMap := limits; db := db st |} in
    if negb admitted then
      (respond 429
         (Error "Rate limit exceeded. Maximum 100 requests per minute."), st)
    else
      match verify_api_key io keyHash (db st) with
      | inl rejection => (rejection, st)
      | inr apiKeyRecord =>
          match json req with
          | None => (internal_error, st)
          | Some eventData =>
              if negb (truthy (event eventData))
                 || negb (truthy (url eventData)) then
                (respond 400 (Error "Event name and URL are required"), st)
              else
                match event_timestamp rt io eventData with
                | None => (internal_error, st)
                | Some ts =>
                    if negb (insert_ok io) then
                      (respond 500 (Error "Failed to store analytics event"),
                       st)
                    else
                      let db1 :=
                        analytics_events_insert
                          (new_row apiKeyRecord req eventData ts) (db st) in
                      let db2 :=
                        if update_ok io then
                          api_keys_update
                            (fun r => String.eqb (api_keys.id r)
                                        (api_keys.id apiKeyRecord))
                            (touch (now_used io)) db1
                        else db1 in
                      (respond 200
                         (Collected true "Event collected successfully"),
                       with_db st db2)
                end
          end
      end.

End analytics_collect.

(** ** auth-register: create an app and mint its key *)

Module auth_register.

Record RegisterRequest := {
  name : option string;
  domain : option string;
  description : option string
}.

Record Request := {
  method : string;
  authorization : option string;      (* req.headers.get('Authorization') *)
  json : option RegisterRequest       (* req.json(); None when it throws *)
}.

Record IO := {
  getUser : option string;   (* supabase.auth.getUser(): the caller, if any *)
  new_app_id : string;       (* uuid_generate_v4() for the app row *)
  new_key_id : string;       (* uuid_generate_v4() for the key row *)
  randomUUID : string;       (* crypto.randomUUID() *)
  insert_app_ok : bool;
  insert_key_ok : bool
}.

Definition serve (io : IO) (req : Request) (db : Store) : Response * Store :=
  if String.eqb (method req) "OPTIONS" then (respond 200 Null, db)
  else if negb (truthy (authorization req)) then
    (respond 401 (Error "Missing authorization header"), db)
  else
    match getUser io with
    | None => (respond 401 (Error "Unauthorized"), db)
    | Some user =>
        match json req with
        | None => (internal_error, db)
        | Some body =>
            if negb (truthy (name body)) || negb (truthy (domain body)) then
              (respond 400 (Error "Name and domain are required"), db)
            else
              let app :=
                {| apps.id := new_app_id io;
                   apps.user_id := user;
                   apps.name := default "" (name body);
                   apps.domain := default "" (domain body);
                   apps.description := or_null (description body) |} in
              match (if insert_app_ok io then apps_insert app db else None)
              with
              | None => (respond 500 (Error "Failed to create app"), db)
              | Some db1 =>
                  let apiKey := "ak_" +:+ remove_dashes (randomUUID io) in
                  let data := TextEncoder_encode apiKey in
                  let hashArray := SHA256.digest data in
                  let keyHash := String.concat "" (List.map hex2 hashArray) in
                  let keyPrefix := substring 0 12 apiKey in
                  let key :=
                    {| api_keys.id := new_key_id io;
                       api_keys.app_id := apps.id app;
                       api_keys.user_id := user;
                       api_keys.key_hash := keyHash;
                       api_keys.key_prefix := keyPrefix;
                       api_keys.is_active := true;
                       api_keys.expires_at := None;
                       api_keys.last_used_at := None;
                       api_keys.revoked_at := None |} in
                  match (if insert_key_ok io then api_keys_insert key db1
                         else None) with
                  | None =>
                      (respond 500 (Error "Failed to create API key"), db1)
                  | Some db2 =>
                      (respond 200
                         (Registered (apps.id app) (apps.name app)
                            (apps.domain app) (apps.description app) apiKey),
                       db2)
                  end
              end
        end
    end.

End auth_register.

(** ** auth-revoke: revoke a key of the caller *)

Module auth_revoke.

Record RevokeRequest := { api_key_id : option string }.

Record Request := {
  method : string;
  authorization : option string;
  json : option RevokeRequest
}.

Record IO := {
  getUser : option string;
  now : Z;                   (* new Date() for revoked_at *)
  update_ok : bool
}.

Definition revoke (now : Z) (r : api_keys.row) : api_keys.row :=
  {| api_keys.id := api_keys.id r;
     api_keys.app_id := api_keys.app_id r;
     api_keys.user_id := api_keys.user_id r;
     api_keys.key_hash := api_keys.key_hash r;
     api_keys.key_prefix := api_keys.key_prefix r;
     api_keys.is_active := false;
     api_keys.expires_at := api_keys.expires_at r;
     api_keys.last_used_at := api_keys.last_used_at r;
     api_keys.revoked_at := Some now |}.

Definition serve (io : IO) (req : Request) (db : Store) : Response * Store :=
  if String.eqb (method req) "OPTIONS" then (respond 200 Null, db)
  else if negb (truthy (authorization req)) then
    (respond 401 (Error "Missing authorization header"), db)
  else
    match getUser io with
    | None => (respond 401 (Error "Unauthorized"), db)
    | Some user =>
        match json req with
        | None => (internal_error, db)
        | Some body =>
            if negb (truthy (api_key_id body)) then
              (respond 400 (Error "api_key_id is required"), db)
            else if negb (update_ok io) then
              (respond 500 (Error "Failed to revoke API key"), db)
            else
              let id := default "" (api_key_id body) in
              (respond 200 (Message "API key revoked successfully"),
               api_keys_update
                 (fun r => String.eqb (api_keys.id r) id
                           && String.eqb (api_keys.user_id r) user)
                 (revoke (now io)) db)
        end
    end.

End auth_revoke.

(** ** analytics-event-summary: count, unique users and devices *)

Module analytics_event_summary.

Record Request := {
  method : string;
  authorization : option string;
  event : option string;              (* url.searchParams.get('event') *)
  startDate : option string;
  endDate : option string;
  app_id : option string
}.

Record IO := {
  getUser : option string;
  app_ok : bool;             (* the query for the one app succeeds *)
  apps_ok : bool;            (* the query for the caller's apps succeeds *)
  events_ok : bool           (* the query for the events succeeds *)
}.

(** Lines 120-130, "Calculate summary statistics". *)
Definition count (events : list analytics_events.row) : nat :=
  length events.

Definition uniqueIps (events : list analytics_events.row) : gset string :=
  list_to_set (omap or_null (List.map analytics_events.ip_address events)).

Definition uniqueUsers (events : list analytics_events.row) : nat :=
  size (uniqueIps events).

(** The callback of [events.forEach]: one turn of the loop that fills the
    histogram. *)
Definition tally (rt : Runtime) (deviceData : JsObject)
    (e : analytics_events.row) : JsObject :=
  if truthy (analytics_events.device e) then
    let device := default "" (analytics_events.device e) in
    js_set rt deviceData device (or_zero_plus_one (js_get rt deviceData device))
  else deviceData.

Definition deviceData (rt : Runtime) (events : list analytics_events.row)
  : JsObject :=
  fold_left (tally rt) events ∅.

(** A date bound of the query: absent, an instant, or [toISOString] throws
    (the outer [None]). *)
Definition bound (rt : Runtime) (param : option string) : option (option Z) :=
  if truthy param then
    match param ≫= Date_parse rt with
    | Some t => Some (Some t)
    | None => None
    end
  else Some None.

Definition serve (rt : Runtime) (io : IO) (req : Request) (db : Store)
  : Response :=
  if String.eqb (method req) "OPTIONS" then respond 200 Null
  else if negb (truthy (authorization req)) then
    respond 401 (Error "Missing authorization header")
  else
    match getUser io with
    | None => respond 401 (Error "Unauthorized")
    | Some user =>
        if negb (truthy (event req)) then
          respond 400 (Error "Event parameter is required")
        else
          let event := default "" (event req) in
          let scope : Response + list string :=
            if truthy (app_id req) then
              let appId := default "" (app_id req) in
              let rows :=
                List.filter
                  (fun a => String.eqb (apps.id a) appId
                            && String.eqb (apps.user_id a) user)
                  (apps_table db) in
              match (if app_ok io then single rows else None) with
              | None => inl (respond 404 (Error "App not found or unauthorized"))
              | Some app => inr [appId]
              end
            else
              let apps :=
                if apps_ok io then
                  List.filter (fun a => String.eqb (apps.user_id a) user)
                    (apps_table db)
                else [] in
              match apps with
              | [] => inl (respond 200 (Summary event 0 0 ∅))
              | _ => inr (List.map apps.id apps)
              end in
          match scope with
          | inl response => response
          | inr appIds =>
              match bound rt (startDate req), bound rt (endDate req) with
              | Some startTime, Some endTime =>
                  if negb (events_ok io) then
                    respond 500 (Error "Failed to fetch analytics data")
                  else
                    let events :=
                      List.filter
                        (fun e =>
                           existsb (String.eqb (analytics_events.app_id e))
                             appIds
                           && String.eqb (analytics_events.event e) event
                           && match startTime with
                              | Some t => t <=? analytics_events.timestamp e
                              | None => true
                              end
                           && match endTime with
                              | Some t => analytics_events.timestamp e <=? t
                              | None => true
                              end)
                        (analytics_events_table db) in
                    respond 200
                      (Summary event (count events) (uniqueUsers events)
                         (deviceData rt events))
              | _, _ => internal_error
              end
          end
    end.

End analytics_event_summary.

(** ** Sequences of calls to the rate limiter *)

Import analytics_collect.

(** The verdicts of a sequence of calls, each with its clock reading, and the
    map they leave. *)
Fixpoint admit_all (calls : list (Z * string)) (m : gmap string Window)
  : list bool * gmap string Window :=
  match calls with
  | [] => ([], m)
  | (now, k) :: rest =>
      let (b, m1) := checkRateLimit now k m in
      let (bs, m2) := admit_all rest m1 in
      (b :: bs, m2)
  end.

(** The verdicts that the calls on key [k] receive, in order. *)
Fixpoint verdicts_for (k : string) (calls : list (Z * string))
    (m : gmap string Window) : list bool :=
  match calls with
  | [] => []
  | (now, k') :: rest =>
      let (b, m1) := checkRateLimit now k' m in
      if String.eqb k' k then b :: verdicts_for k rest m1
      else verdicts_for k rest m1
  end.

(** A call at [now] opens a new window for [k]: the key is unknown or its
    reset instant has passed. *)
Definition opens (now : Z) (k : string) (m : gmap string Window) : Prop :=
  match m !! k with
  | None => True
  | Some record => resetAt record < now
  end.

(** Every call on [k] arrives no later than [limit]. *)
Definition within (k : string) (limit : Z) (calls : list (Z * string)) : Prop :=
  Forall (fun c => snd c = k -> fst c <= limit) calls.

(** Every entry of the map counts between 1 and [RATE_LIMIT] requests. *)
Definition bounded (m : gmap string Window) : Prop :=
  forall k record, m !! k = Some record -> 1 <= count record <= RATE_LIMIT.

(** ** The life of a key *)

(** The requests to the edge functions that change the state, and their
    effect.  (The dashboard deletes an app directly in the store, which
    removes its keys; that operation is not among them.) *)
Inductive Op :=
| Collect (rt : Runtime) (io : IO) (req : Request)
| Register (io : auth_register.IO) (req : auth_register.Request)
| Revoke (io : auth_revoke.IO) (req : auth_revoke.Request).

Definition step (w : State) (op : Op) : State :=
  match op with
  | Collect rt io req => (serve rt io req w).2
  | Register io req => with_db w (auth_register.serve io req (db w)).2
  | Revoke io req => with_db w (auth_revoke.serve io req (db w)).2
  end.

Definition run (ops : list Op) (w : State) : State := fold_left step ops w.

(** The keys that a revocation of [id] by [user] addresses. *)
Definition addressed (id user : string) (r : api_keys.row) : bool :=
  String.eqb (api_keys.id r) id && String.eqb (api_keys.user_id r) user.

(** [op] is a revocation of the key [id] by [user] that the store carries
    out. *)
Definition revokes (id user : string) (op : Op) : Prop :=
  exists io req,
    op = Revoke io req
    /\ auth_revoke.method req <> "OPTIONS"
    /\ truthy (auth_revoke.authorization req) = true
    /\ auth_revoke.getUser io = Some user
    /\ auth_revoke.json req = Some {| auth_revoke.api_key_id := Some id |}
    /\ id <> ""
    /\ auth_revoke.update_ok io = true.

Definition has_hash (h : string) (r : api_keys.row) : bool :=
  String.eqb (api_keys.key_hash r) h.

(** What the handlers never change in a key. *)
Definition same_key (r r' : api_keys.row) : Prop :=
  api_keys.id r' = api_keys.id r
  /\ api_keys.app_id r' = api_keys.app_id r
  /\ api_keys.user_id r' = api_keys.user_id r
  /\ api_keys.key_hash r' = api_keys.key_hash r
  /\ api_keys.expires_at r' = api_keys.expires_at r.

(** ** Readings of a list of events *)

(** How many of the events report the device [d]. *)
Definition occurrences (d : string) (events : list analytics_events.row) : nat :=
  length (List.filter
            (fun e => bool_decide (analytics_events.device e = Some d)) events).

(** The reading of the specification: the number of distinct IP addresses
    that are not null. *)
Definition distinct_non_null_ips (events : list analytics_events.row) : nat :=
  size (list_to_set (omap analytics_events.ip_address events) : gset string).

(** ** Concrete runs *)

Module Sample.

Definition runtime : Runtime :=
  {| Date_parse := ISODate.parse; proto_accessor := false |}.

Definition empty_store : Store :=
  {| apps_table := []; api_keys_table := []; analytics_events_table := [] |}.

Definition initial : State := {| rateLimitMap := ∅; db := empty_store |}.

Definition owner : string := "6f9619ff-8b86-4d01-b42d-00cf4fc964ff".

Definition register_io : auth_register.IO :=
  {| auth_register.getUser := Some owner;
     auth_register.new_app_id := "0b0e7a3c-5c1d-4d6e-9a57-1c2f3e4d5a6b";
     auth_register.new_key_id := "7d444840-9dc0-41d1-b245-5ffdce74fad2";
     auth_register.randomUUID := "123e4567-e89b-42d3-a456-426614174000";
     auth_register.insert_app_ok := true;
     auth_register.insert_key_ok := true |}.

Definition register_request : auth_register.Request :=
  {| auth_register.method := "POST";
     auth_register.authorization := Some "Bearer owner-session";
     auth_register.json :=
       Some {| auth_register.name := Some "My Website";
               auth_register.domain := Some "https://example.com";
               auth_register.description := None |} |}.

(** The store once the owner has registered one app. *)
Definition registered : Store :=
  (auth_register.serve register_io register_request empty_store).2.

Definition secret : string := "ak_123e4567e89b42d3a456426614174000".

Definition io : IO :=
  {| now_limit := 1708432496000;
     now_expiry := 1708432496001;
     now_event := 1708432496002;
     now_used := 1708432496003;
     select_ok := true;
     insert_ok := true;
     update_ok := true |}.

Definition click (ts : option string) : AnalyticsEvent :=
  {| event := Some "click";
     url := Some "https://example.com/page";
     referrer := Some "";
     device := Some "mobile";
     ipAddress := Some "192.168.1.1";
     timestamp := ts;
     metadata := None |}.

Definition post (key : string) (ts : option string) : Request :=
  {| method := "POST";
     x_api_key := Some key;
     user_agent := Some "Mozilla/5.0";
     json := Some (click ts) |}.

(** The responses to the same request sent [n] times in a row. *)
Fixpoint replay (req : Request) (n : nat) (st : State) : list Response :=
  match n with
  | O => []
  | S n' =>
      let (response, st') := serve runtime io req st in
      response :: replay req n' st'
  end.

Definition key_id : string := "7d444840-9dc0-41d1-b245-5ffdce74fad2".

Definition intruder : string := "3f2504e0-4f89-41d3-9a0c-0305e82c3301".

Definition revoke_io (user : string) : auth_revoke.IO :=
  {| auth_revoke.getUser := Some user;
     auth_revoke.now := 1708432500000;
     auth_revoke.update_ok := true |}.

Definition revoke_request : auth_revoke.Request :=
  {| auth_revoke.method := "POST";
     auth_revoke.authorization := Some "Bearer session";
     auth_revoke.json := Some {| auth_revoke.api_key_id := Some key_id |} |}.

Definition app_id : string := "0b0e7a3c-5c1d-4d6e-9a57-1c2f3e4d5a6b".

Definition summary_io (user : string) : analytics_event_summary.IO :=
  {| analytics_event_summary.getUser := Some user;
     analytics_event_summary.app_ok := true;
     analytics_event_summary.apps_ok := true;
     analytics_event_summary.events_ok := true |}.

Definition summary_request (app : option string)
  : analytics_event_summary.Request :=
  {| analytics_event_summary.method := "GET";
     analytics_event_summary.authorization := Some "Bearer session";
     analytics_event_summary.event := Some "click";
     analytics_event_summary.startDate := None;
     analytics_event_summary.endDate := None;
     analytics_event_summary.app_id := app |}.

(** The scenario of the specification: the registered key reports three
    clicks, two from a mobile at one address and one from a desktop at
    another. *)
Definition click_from (device ip : string) : Op :=
  Collect runtime io
    {| method := "POST";
       x_api_key := Some secret;
       user_agent := Some "Mozilla/5.0";
       json := Some {| event := Some "click";
                       url := Some "https://example.com/page";
                       referrer := None;
                       device := Some device;
                       ipAddress := Some ip;
                       timestamp := None;
                       metadata := None |} |}.

Definition three_clicks : State :=
  run [click_from "mobile" "1.1.1.1"; click_from "mobile" "1.1.1.1";
       click_from "desktop" "2.2.2.2"]
    {| rateLimitMap := ∅; db := registered |}.

End Sample.

(** * Properties *)

Example hashApiKey_abc :
  hashApiKey "abc"
  = "ba7816bf8f01cfea414140de5dae2223b00361a396177a9cb410ff61f20015ad".
Proof. vm_compute. reflexivity. Qed.

Example hashApiKey_empty :
  hashApiKey ""
  = "e3b0c44298fc1c149afbf4c8996fb92427ae41e4649b934ca495991b7852b855".
Proof. vm_compute. reflexivity. Qed.

Example ISODate_parse_readme :
  ISODate.parse "2024-02-20T12:34:56Z" = Some 1708432496000
  /\ ISODate.parse "1970-01-01T00:00:00.000Z" = Some 0
  /\ ISODate.parse "garbage" = None.
Proof. vm_compute. auto. Qed.

(** ** The rate limiter *)

Section RateLimiter.

Implicit Types (m : gmap string Window) (k : string) (now : Z).

Lemma checkRateLimit_opens now k m :
  opens now k m ->
  checkRateLimit now k m
  = (true, <[k := {| count := 1; resetAt := now + 60000 |}]> m).
Proof.
  unfold opens, checkRateLimit. destruct (m !! k) as [r|]; [|done].
  intros H. destruct (Z.gtb_spec now (resetAt r)); [done | lia].
Qed.

Lemma checkRateLimit_in_window now k m r :
  m !! k = Some r -> now <= resetAt r ->
  checkRateLimit now k m
  = if count r <? 100
    then (true, <[k := {| count := count r + 1; resetAt := resetAt r |}]> m)
    else (false, m).
Proof.
  intros Hk Hnow. unfold checkRateLimit. rewrite Hk.
  destruct (Z.gtb_spec now (resetAt r)); [lia|].
  unfold RATE_LIMIT. rewrite Z.geb_leb.
  destruct (Z.leb_spec 100 (count r)), (Z.ltb_spec (count r) 100); done || lia.
Qed.

Lemma checkRateLimit_other now k k' m :
  k' <> k -> (checkRateLimit now k' m).2 !! k = m !! k.
Proof.
  intros Hne. unfold checkRateLimit.
  destruct (m !! k') as [r|]; simpl.
  - destruct (now >? resetAt r); simpl; [by rewrite lookup_insert_ne|].
    destruct (count r >=? RATE_LIMIT); simpl; [done|].
    by rewrite lookup_insert_ne.
  - by rewrite lookup_insert_ne.
Qed.

Lemma checkRateLimit_rejects now k m m' :
  checkRateLimit now k m = (false, m') ->
  m' = m /\ exists r, m !! k = Some r /\ now <= resetAt r /\ 100 <= count r.
Proof.
  unfold checkRateLimit. destruct (m !! k) as [r|]; [|done].
  destruct (Z.gtb_spec now (resetAt r)); [done|].
  unfold RATE_LIMIT. rewrite Z.geb_leb.
  destruct (Z.leb_spec 100 (count r)); [|done].
  intros [= <-]. split; [done|]. exists r. repeat split; lia || done.
Qed.

Lemma checkRateLimit_bounded now k m :
  bounded m -> bounded (checkRateLimit now k m).2.
Proof.
  intros Hm k' r'. unfold checkRateLimit.
  destruct (m !! k) as [r|] eqn:Hk; simpl.
  - destruct (now >? resetAt r); simpl.
    + rewrite lookup_insert. case_decide; [|by apply Hm].
      intros [= <-]. simpl. unfold RATE_LIMIT. lia.
    + unfold RATE_LIMIT in *. rewrite Z.geb_leb.
      destruct (Z.leb_spec 100 (count r)); simpl; [by apply Hm|].
      rewrite lookup_insert. case_decide; [|by apply Hm].
      intros [= <-]. simpl. specialize (Hm k r Hk). lia.
  - rewrite lookup_insert. case_decide; [|by apply Hm].
    intros [= <-]. simpl. unfold RATE_LIMIT. lia.
Qed.

Lemma admit_all_bounded calls m :
  bounded m -> bounded (admit_all calls m).2.
Proof.
  revert m. induction calls as [|[now k] rest IH]; intros m Hm; [done|].
  simpl. pose proof (checkRateLimit_bounded now k m Hm) as H1.
  destruct (checkRateLimit now k m) as [b m1]. simpl in H1.
  specialize (IH m1 H1). destruct (admit_all rest m1) as [bs m2]. done.
Qed.

(** How many of the calls are on [k]. *)
Lemma verdicts_for_length k calls m :
  length (verdicts_for k calls m)
  = length (List.filter (fun c => String.eqb (snd c) k) calls).
Proof.
  revert m. induction calls as [|[now k'] rest IH]; intros m; [done|].
  simpl. destruct (checkRateLimit now k' m) as [b m1].
  destruct (String.eqb k' k); simpl; by rewrite IH.
Qed.

(** Inside a window whose counter stands at [c], the [i]-th further call on
    the key is admitted exactly when [c + i < 100]; the other keys do not
    interfere. *)
Lemma verdicts_in_window k calls m r :
  m !! k = Some r -> within k (resetAt r) calls ->
  verdicts_for k calls m
  = List.map (fun i => count r + Z.of_nat i <? 100)
      (seq 0 (length (verdicts_for k calls m)))
  /\ exists r', (admit_all calls m).2 !! k = Some r'
       /\ resetAt r' = resetAt r
       /\ count r' = Z.max (count r)
                       (Z.min 100 (count r
                                   + Z.of_nat (length (verdicts_for k calls m)))).
Proof.
  revert m r. induction calls as [|[now k'] rest IH]; intros m r Hk Hin.
  { simpl. split; [done|]. exists r. repeat split; [done|lia]. }
  apply Forall_cons in Hin as [Hc Hin]. simpl in Hc. simpl.
  destruct (String.eqb_spec k' k) as [->|Hne].
  - rewrite (checkRateLimit_in_window now k m r Hk (Hc eq_refl)).
    destruct (Z.ltb_spec (count r) 100) as [Hlt|Hge].
    + set (r1 := {| count := count r + 1; resetAt := resetAt r |}).
      destruct (IH (<[k:=r1]> m) r1) as [Hv (r' & Hr' & Hreset & Hcount)];
        [by rewrite lookup_insert_eq | done |].
      destruct (admit_all rest (<[k:=r1]> m)) as [bs m2]. simpl in *.
      split.
      * rewrite Z.add_0_r. destruct (Z.ltb_spec (count r) 100); [|lia].
        f_equal. rewrite Hv at 1. rewrite <- seq_shift, List.map_map.
        apply List.map_ext. intros i. f_equal. lia.
      * exists r'. repeat split; [done..|]. rewrite Hcount. lia.
    + destruct (IH m r Hk Hin) as [Hv (r' & Hr' & Hreset & Hcount)].
      destruct (admit_all rest m) as [bs m2]. simpl in *.
      split.
      * rewrite Z.add_0_r. destruct (Z.ltb_spec (count r) 100); [lia|].
        f_equal. rewrite Hv at 1. rewrite <- seq_shift, List.map_map.
        apply List.map_ext. intros i.
        destruct (Z.ltb_spec (count r + Z.of_nat i) 100),
          (Z.ltb_spec (count r + Z.of_nat (S i)) 100); done || lia.
      * exists r'. repeat split; [done..|]. rewrite Hcount. lia.
  - pose proof (checkRateLimit_other now k k' m Hne) as Ho.
    destruct (checkRateLimit now k' m) as [b m1]. simpl in Ho.
    rewrite <- Ho in Hk.
    destruct (IH m1 r Hk Hin) as [Hv Hr'].
    destruct (admit_all rest m1) as [bs m2]. done.
Qed.

End RateLimiter.

(** The verdicts on a key from the call that opens its window. *)
Lemma verdicts_from_opening (m : gmap string Window) (k : string) (t0 : Z)
    (calls : list (Z * string)) :
  opens t0 k m ->
  within k (t0 + 60000) calls ->
  verdicts_for k ((t0, k) :: calls) m
  = List.map (fun i => (i <? 100)%nat)
      (seq 0 (S (length (List.filter (fun c => String.eqb (snd c) k)
                           calls)))).
Proof.
  intros Hopen Hin. simpl.
  rewrite (checkRateLimit_opens t0 k m Hopen), String.eqb_refl.
  set (r := {| count := 1; resetAt := t0 + 60000 |}).
  destruct (verdicts_in_window k calls (<[k:=r]> m) r) as [Hv _];
    [by rewrite lookup_insert_eq | done |].
  rewrite verdicts_for_length in Hv. rewrite Hv. f_equal.
  rewrite <- seq_shift, List.map_map. apply List.map_ext. intros i. simpl.
  destruct (Z.ltb_spec (1 + Z.of_nat i) 100), (Nat.ltb_spec (S i) 100);
    done || lia.
Qed.

(** C2. A call that opens a window (first call on the key, or a call after
    the reset instant of the current window) is admitted and sets the entry
    to count 1 and reset instant now + 60 s.  Of the calls on that key that
    arrive within this window, the opening call included and whatever calls
    on other keys come in between, the first 100 are admitted and every
    later one, the 101st in particular, is rejected. *)
Theorem fixed_window_capacity (m : gmap string Window) (k : string) (t0 : Z)
    (calls : list (Z * string)) :
  opens t0 k m ->
  within k (t0 + 60000) calls ->
  checkRateLimit t0 k m
  = (true, <[k := {| count := 1; resetAt := t0 + 60000 |}]> m)
  /\ verdicts_for k ((t0, k) :: calls) m
     = List.map (fun i => (i <? 100)%nat)
         (seq 0 (S (length (List.filter (fun c => String.eqb (snd c) k)
                              calls)))).
Proof.
  intros Hopen Hin. split.
  - by apply checkRateLimit_opens.
  - by apply verdicts_from_opening.
Qed.

(** A key makes 102 calls in 50 seconds while another key calls in between:
    the first 100 are admitted, the last two rejected. *)
Lemma fixed_window_capacity_witness :
  let calls := replicate 50 (500, "k") ++ [(700, "other")]
               ++ replicate 51 (50000, "k") in
  checkRateLimit 0 "k" ∅
  = (true, <[ "k" := {| count := 1; resetAt := 0 + 60000 |}]> ∅)
  /\ verdicts_for "k" ((0, "k") :: calls) ∅
     = List.map (fun i => (i <? 100)%nat)
         (seq 0 (S (length (List.filter (fun c => String.eqb (snd c) "k")
                              calls)))).
Proof.
  apply (fixed_window_capacity ∅ "k" 0).
  - unfold opens. rewrite lookup_empty. exact I.
  - unfold within. apply (bool_decide_unpack _). vm_compute. reflexivity.
Defined.

(** C9. From the empty map, every sequence of calls leaves each entry with a
    count between 1 and 100.  A rejected call leaves the map as it was, and
    after a rejection every further call on that key that arrives within the
    same window (no later than its reset instant) is rejected too, the entry
    staying the same. *)
Theorem rate_limiter_invariant :
  (forall (calls : list (Z * string)) (k : string) (record : Window),
      (admit_all calls ∅).2 !! k = Some record ->
      1 <= count record <= 100)
  /\ (forall (now : Z) (k : string) (m m' : gmap string Window),
         checkRateLimit now k m = (false, m') -> m' = m)
  /\ (forall (now : Z) (k : string) (m m' : gmap string Window)
             (record : Window) (later : list (Z * string)),
         checkRateLimit now k m = (false, m') ->
         m !! k = Some record ->
         within k (resetAt record) later ->
         Forall (fun verdict => verdict = false) (verdicts_for k later m')
         /\ (admit_all later m').2 !! k = Some record).
Proof.
  split; [|split].
  - intros calls k r. apply (admit_all_bounded calls ∅). intros k' r'.
    by rewrite lookup_empty.
  - intros now k m m' H. by apply checkRateLimit_rejects in H as [-> _].
  - intros now k m m' r later H Hk Hin.
    apply checkRateLimit_rejects in H as [-> (r0 & Hk0 & _ & Hfull)].
    assert (r0 = r) as -> by congruence.
    destruct (verdicts_in_window k later m r Hk Hin)
      as [Hv (r' & Hr' & Hreset & Hcount)].
    split.
    + rewrite Hv. apply Forall_forall. intros b Hb.
      apply list_elem_of_In, in_map_iff in Hb as (i & <- & _).
      destruct (Z.ltb_spec (count r + Z.of_nat i) 100); [lia | done].
    + rewrite Hr'. f_equal. destruct r', r. simpl in *. f_equal; lia.
Qed.

(** After 100 calls within a window the entry stands at 100; the 101st call
    is rejected and so are two later ones in the window. *)
Lemma rate_limiter_invariant_witness :
  let m := (admit_all (replicate 100 (0, "k")) ∅).2 in
  let record := {| count := 100; resetAt := 60000 |} in
  1 <= count record <= 100
  /\ Forall (fun verdict => verdict = false)
       (verdicts_for "k" [(10, "k"); (60000, "k")] m)
  /\ (admit_all [(10, "k"); (60000, "k")] m).2 !! "k" = Some record.
Proof.
  intros m record.
  assert (m !! "k" = Some record) as Hm by (vm_compute; reflexivity).
  destruct rate_limiter_invariant as (Hbound & _ & Hstay).
  split.
  - exact (Hbound (replicate 100 (0, "k")) "k" record Hm).
  - apply (Hstay 5 "k" m m record).
    + vm_compute. reflexivity.
    + exact Hm.
    + unfold within. apply (bool_decide_unpack _). vm_compute. reflexivity.
Defined.

(** ** The ingestion handler *)

(** Enters [serve] past the tests on the method and on the credential. *)
Ltac enter_serve Hm Hk Hne :=
  unfold serve; apply String.eqb_neq in Hm; rewrite Hm, Hk; simpl;
  apply String.eqb_neq in Hne; rewrite Hne; simpl.

Section Ingestion.

Variable rt : Runtime.
Implicit Types (io : IO) (req : Request) (st : State).

Lemma truthy_Some (v : option string) :
  truthy v = true -> exists s, v = Some s /\ s <> "".
Proof.
  destruct v as [s|]; [|done]. simpl. intros H. exists s. split; [done|].
  intros ->. done.
Qed.

Lemma verify_api_key_rejections io keyHash db rejection :
  verify_api_key io keyHash db = inl rejection ->
  rejection = invalid_key \/ rejection = revoked_key \/ rejection = expired_key.
Proof.
  unfold verify_api_key.
  destruct (if select_ok io then _ else _) as [r|]; [|intros [= <-]; auto].
  destruct (negb (api_keys.is_active r)); [intros [= <-]; auto|].
  destruct (match api_keys.expires_at r with Some _ => _ | None => _ end);
    [intros [= <-]; auto | done].
Qed.

(** The stages of the handler, in the order of the source. *)
Lemma serve_missing io req st :
  method req <> "OPTIONS" -> truthy (x_api_key req) = false ->
  serve rt io req st = (missing_key, st).
Proof.
  intros Hm Hk. unfold serve. apply String.eqb_neq in Hm. by rewrite Hm, Hk.
Qed.

Lemma serve_denied io req st apiKey m' :
  method req <> "OPTIONS" -> x_api_key req = Some apiKey -> apiKey <> "" ->
  checkRateLimit (now_limit io) (hashApiKey apiKey) (rateLimitMap st)
  = (false, m') ->
  serve rt io req st = (rate_limited, st).
Proof.
  intros Hm Hk Hne Hrl. enter_serve Hm Hk Hne. rewrite Hrl. simpl.
  apply checkRateLimit_rejects in Hrl as [-> _]. by destruct st.
Qed.

Lemma serve_rejected io req st apiKey m' rejection :
  method req <> "OPTIONS" -> x_api_key req = Some apiKey -> apiKey <> "" ->
  checkRateLimit (now_limit io) (hashApiKey apiKey) (rateLimitMap st)
  = (true, m') ->
  verify_api_key io (hashApiKey apiKey) (db st) = inl rejection ->
  serve rt io req st = (rejection, {| rateLimitMap := m'; db := db st |}).
Proof.
  intros Hm Hk Hne Hrl Hv. enter_serve Hm Hk Hne. rewrite Hrl. simpl.
  by rewrite Hv.
Qed.

(** What an accepted request went through and what it stored. *)
Lemma serve_accepted io req st st' :
  serve rt io req st = (accepted, st') ->
  exists apiKey m' apiKeyRecord eventData ts,
    x_api_key req = Some apiKey /\ apiKey <> ""
    /\ checkRateLimit (now_limit io) (hashApiKey apiKey) (rateLimitMap st)
       = (true, m')
    /\ verify_api_key io (hashApiKey apiKey) (db st) = inr apiKeyRecord
    /\ json req = Some eventData
    /\ truthy (event eventData) = true /\ truthy (url eventData) = true
    /\ event_timestamp rt io eventData = Some ts
    /\ insert_ok io = true
    /\ analytics_events_table (db st')
       = analytics_events_table (db st)
         ++ [new_row apiKeyRecord req eventData ts].
Proof.
  unfold serve. destruct (String.eqb (method req) "OPTIONS"); [done|].
  destruct (truthy (x_api_key req)) eqn:Hk; [|done].
  apply truthy_Some in Hk as (apiKey & Hk & Hne). rewrite Hk. simpl.
  destruct (checkRateLimit _ _ _) as [[|] m'] eqn:Hrl; [|done]. simpl.
  destruct (verify_api_key _ _ _) as [rej|r] eqn:Hv.
  { intros [= Hr _]. apply verify_api_key_rejections in Hv.
    destruct Hv as [-> | [-> | ->]]; done. }
  destruct (json req) as [e|]; [|done].
  destruct (truthy (event e)) eqn:He; [|done].
  destruct (truthy (url e)) eqn:Hu; [|done]. simpl.
  destruct (event_timestamp rt io e) as [ts|] eqn:Hts; [|done].
  destruct (insert_ok io) eqn:Hins; [|done]. simpl.
  intros [= <-]. exists apiKey, m', r, e, ts.
  repeat split; try done. by destruct (update_ok io).
Qed.

(** A request that is not accepted leaves the store as it was. *)
Lemma serve_not_accepted io req st :
  (serve rt io req st).1 <> accepted ->
  db (serve rt io req st).2 = db st.
Proof.
  unfold serve. destruct (String.eqb (method req) "OPTIONS"); [done|].
  destruct (negb (truthy (x_api_key req))); [done|].
  destruct (checkRateLimit _ _ _) as [[|] m']; [|done]. simpl.
  destruct (verify_api_key _ _ _) as [rej|r]; [done|].
  destruct (json req) as [e|]; [|done].
  destruct (negb (truthy (event e)) || negb (truthy (url e))); [done|].
  destruct (event_timestamp rt io e) as [ts|]; [|done].
  destruct (negb (insert_ok io)); [done|]. simpl. done.
Qed.

End Ingestion.


(** ** The order of the checks *)

(** C1, as the handler has it.  A request without credential is answered
    "missing" and never reaches the limiter.  For a request that presents a
    credential, the limiter is consulted on the hash of that credential
    before the key store is read: the answer is "rate limited" exactly when
    the limiter denies, whatever the key store holds, and a rejection by the
    key checks (invalid, revoked, expired) is the answer exactly when the
    limiter admitted. *)
Theorem rate_limit_precedes_key_checks (rt : Runtime) (io : IO) (req : Request)
    (st : State) (apiKey : string) :
  method req <> "OPTIONS" ->
  (truthy (x_api_key req) = false -> serve rt io req st = (missing_key, st))
  /\ (x_api_key req = Some apiKey -> apiKey <> "" ->
      let verdict :=
        (checkRateLimit (now_limit io) (hashApiKey apiKey)
           (rateLimitMap st)).1 in
      ((serve rt io req st).1 = rate_limited <-> verdict = false)
      /\ (forall rejection,
             verify_api_key io (hashApiKey apiKey) (db st) = inl rejection ->
             ((serve rt io req st).1 = rejection <-> verdict = true))).
Proof.
  intros Hm. split; [by apply serve_missing|]. intros Hk Hne verdict.
  destruct (checkRateLimit (now_limit io) (hashApiKey apiKey) (rateLimitMap st))
    as [b m'] eqn:Hrl.
  subst verdict. simpl. destruct b.
  - assert (forall rejection,
               verify_api_key io (hashApiKey apiKey) (db st) = inl rejection ->
               (serve rt io req st).1 = rejection) as Hrej.
    { intros rej Hv. by rewrite (serve_rejected rt io req st apiKey m' rej). }
    split.
    + split; [|done]. intros Hresp.
      destruct (verify_api_key io (hashApiKey apiKey) (db st)) as [rej|r] eqn:Hv.
      * rewrite (Hrej rej eq_refl) in Hresp. subst rej.
        apply verify_api_key_rejections in Hv. by destruct Hv as [? | [? | ?]].
      * revert Hresp. enter_serve Hm Hk Hne. rewrite Hrl. simpl. rewrite Hv.
        destruct (json req) as [e|]; [|done].
        destruct (negb (truthy (event e)) || negb (truthy (url e))); [done|].
        destruct (event_timestamp rt io e); [|done].
        by destruct (negb (insert_ok io)).
    + intros rej Hv. split; [done|]. intros _. by apply Hrej.
  - rewrite (serve_denied rt io req st apiKey m' Hm Hk Hne Hrl). simpl.
    split; [done|]. intros rej Hv. split; [|done]. intros <-.
    apply verify_api_key_rejections in Hv. by destruct Hv as [? | [? | ?]].
Qed.

(** The first request of an unknown key: the limiter admits it, the key
    checks answer "invalid". *)
Lemma rate_limit_precedes_key_checks_witness :
  let req := Sample.post "ak_unknown" None in
  let verdict :=
    (checkRateLimit (now_limit Sample.io) (hashApiKey "ak_unknown")
       (rateLimitMap Sample.initial)).1 in
  ((serve Sample.runtime Sample.io req Sample.initial).1 = rate_limited
   <-> verdict = false)
  /\ (forall rejection,
         verify_api_key Sample.io (hashApiKey "ak_unknown")
           (db Sample.initial) = inl rejection ->
         ((serve Sample.runtime Sample.io req Sample.initial).1 = rejection
          <-> verdict = true)).
Proof.
  intros req verdict.
  assert (method req <> "OPTIONS") as Hm by (simpl; discriminate).
  assert ("ak_unknown" <> "") as Hne by discriminate.
  exact (proj2 (rate_limit_precedes_key_checks Sample.runtime Sample.io req
                  Sample.initial "ak_unknown" Hm) eq_refl Hne).
Defined.

(** While the store holds no key, the answer to a request that presents a
    credential is decided by the limiter alone. *)
Lemma serve_no_keys (rt : Runtime) (io : IO) (req : Request) (st : State)
    (apiKey : string) :
  method req <> "OPTIONS" -> x_api_key req = Some apiKey -> apiKey <> "" ->
  api_keys_table (db st) = [] ->
  serve rt io req st
  = let (admitted, m') :=
      checkRateLimit (now_limit io) (hashApiKey apiKey) (rateLimitMap st) in
    (if admitted then invalid_key else rate_limited,
     {| rateLimitMap := m'; db := db st |}).
Proof.
  intros Hm Hk Hne Hnone.
  destruct (checkRateLimit _ _ _) as [[|] m'] eqn:Hrl.
  - apply (serve_rejected rt io req st apiKey m' invalid_key Hm Hk Hne Hrl).
    unfold verify_api_key. rewrite Hnone. simpl. by destruct (select_ok io).
  - rewrite (serve_denied rt io req st apiKey m' Hm Hk Hne Hrl).
    apply checkRateLimit_rejects in Hrl as [-> _]. by destruct st.
Qed.

Lemma replay_no_keys (req : Request) (apiKey : string) (n : nat) (st : State) :
  method req <> "OPTIONS" -> x_api_key req = Some apiKey -> apiKey <> "" ->
  api_keys_table (db st) = [] ->
  Sample.replay req n st
  = List.map (fun admitted : bool =>
                if admitted then invalid_key else rate_limited)
      (verdicts_for (hashApiKey apiKey)
         (replicate n (now_limit Sample.io, hashApiKey apiKey))
         (rateLimitMap st)).
Proof.
  intros Hm Hk Hne. revert st. induction n as [|n IH]; intros st Hnone; [done|].
  cbn [Sample.replay replicate verdicts_for].
  rewrite (serve_no_keys Sample.runtime Sample.io req st apiKey Hm Hk Hne Hnone).
  destruct (checkRateLimit _ _ _) as [b m']. rewrite String.eqb_refl.
  cbn [List.map]. f_equal. by apply IH.
Qed.

Lemma filter_replicate_key (k : string) (t : Z) (n : nat) :
  List.filter (fun c : Z * string => String.eqb (snd c) k) (replicate n (t, k))
  = replicate n (t, k).
Proof.
  induction n as [|n IH]; [done|]. cbn [replicate List.filter snd].
  by rewrite String.eqb_refl, IH.
Qed.

(** C1, as stated, fails: a key that nobody issued, presented 101 times
    within a minute to a store that holds no key at all, is answered
    "invalid" 100 times and "rate limited" the 101st time, although it never
    authenticated. *)
Lemma invalid_credential_is_rate_limited :
  api_keys_table (db Sample.initial) = []
  /\ Sample.replay (Sample.post "ak_unknown" None) 101 Sample.initial
     = replicate 100 invalid_key ++ [rate_limited].
Proof.
  split; [reflexivity|].
  assert ("ak_unknown" <> "") as Hne by discriminate.
  assert (method (Sample.post "ak_unknown" None) <> "OPTIONS")
    as Hm by (simpl; discriminate).
  rewrite (replay_no_keys _ "ak_unknown" 101 Sample.initial Hm eq_refl Hne
             eq_refl).
  generalize (hashApiKey "ak_unknown"). intros h.
  change (replicate 101 (now_limit Sample.io, h))
    with ((now_limit Sample.io, h) :: replicate 100 (now_limit Sample.io, h)).
  rewrite verdicts_from_opening.
  - rewrite filter_replicate_key, length_replicate. reflexivity.
  - unfold opens. cbn [Sample.initial rateLimitMap]. by rewrite lookup_empty.
  - apply Forall_replicate. simpl. lia.
Qed.

(** ** The timestamp of a stored event *)

(** C3, as the handler has it.  An accepted request appends one event.  Its
    timestamp is the instant that the payload's timestamp parses to when the
    payload carries a non-empty timestamp, and the server clock when the
    payload carries none (or an empty one).  A request whose payload carries
    a non-empty timestamp that does not parse is not accepted and stores
    nothing; when it passes the limiter, the key checks and the check of
    event and url, it is answered with the internal error. *)
Theorem stored_timestamp (rt : Runtime) (io : IO) (req : Request) (st : State)
    (eventData : AnalyticsEvent) :
  json req = Some eventData ->
  ((serve rt io req st).1 = accepted ->
   exists row,
     analytics_events_table (db (serve rt io req st).2)
     = analytics_events_table (db st) ++ [row]
     /\ match timestamp eventData with
        | Some s =>
            if String.eqb s "" then analytics_events.timestamp row = now_event io
            else Date_parse rt s = Some (analytics_events.timestamp row)
        | None => analytics_events.timestamp row = now_event io
        end)
  /\ (forall s, timestamp eventData = Some s -> s <> "" ->
      Date_parse rt s = None ->
      (serve rt io req st).1 <> accepted
      /\ db (serve rt io req st).2 = db st
      /\ (forall apiKey apiKeyRecord,
             method req <> "OPTIONS" ->
             x_api_key req = Some apiKey -> apiKey <> "" ->
             (checkRateLimit (now_limit io) (hashApiKey apiKey)
                (rateLimitMap st)).1 = true ->
             verify_api_key io (hashApiKey apiKey) (db st)
             = inr apiKeyRecord ->
             truthy (event eventData) = true ->
             truthy (url eventData) = true ->
             (serve rt io req st).1 = internal_error)).
Proof.
  intros Hjson. split.
  - intros Hacc. destruct (serve rt io req st) as [resp st'] eqn:Hs.
    simpl in Hacc. subst resp.
    apply serve_accepted in Hs
      as (k & m' & r & e & ts & _ & _ & _ & _ & He & _ & _ & Hts & _ & Htab).
    assert (e = eventData) as -> by congruence.
    exists (new_row r req eventData ts). split; [done|]. simpl.
    unfold event_timestamp in Hts. destruct (timestamp eventData) as [s|].
    + simpl in Hts. destruct (String.eqb s ""); simpl in Hts; congruence.
    + simpl in Hts. congruence.
  - intros s Hs Hne Hparse.
    assert (event_timestamp rt io eventData = None) as Hts.
    { unfold event_timestamp. rewrite Hs. simpl.
      apply String.eqb_neq in Hne. by rewrite Hne. }
    assert ((serve rt io req st).1 <> accepted) as Hnot.
    { intros Hacc. destruct (serve rt io req st) as [resp st'] eqn:Hserve.
      simpl in Hacc. subst resp.
      apply serve_accepted in Hserve
        as (k & m' & r & e & ts & _ & _ & _ & _ & He & _ & _ & Hts' & _).
      congruence. }
    split; [done|]. split; [by apply serve_not_accepted|].
    intros apiKey r Hm Hk Hkne Hrl Hv Hev Hurl.
    enter_serve Hm Hk Hkne.
    destruct (checkRateLimit _ _ _) as [b m']. simpl in Hrl. subst b. simpl.
    by rewrite Hv, Hjson, Hev, Hurl, Hts.
Qed.

(** A registered key posts an event dated as in the documentation: the
    event is stored with that instant.  It posts one whose timestamp does not
    parse: the request fails with the internal error and stores nothing. *)
Lemma stored_timestamp_witness :
  let st := {| rateLimitMap := ∅; db := Sample.registered |} in
  let req := Sample.post Sample.secret (Some "2024-02-20T12:34:56Z") in
  let bad := Sample.post Sample.secret (Some "garbage") in
  (exists row,
      analytics_events_table (db (serve Sample.runtime Sample.io req st).2)
      = analytics_events_table (db st) ++ [row]
      /\ Date_parse Sample.runtime "2024-02-20T12:34:56Z"
         = Some (analytics_events.timestamp row))
  /\ (serve Sample.runtime Sample.io bad st).1 <> accepted
  /\ db (serve Sample.runtime Sample.io bad st).2 = db st
  /\ (serve Sample.runtime Sample.io bad st).1 = internal_error.
Proof.
  intros st req bad. split.
  - assert (json req = Some (Sample.click (Some "2024-02-20T12:34:56Z")))
      as Hjson by reflexivity.
    assert ((serve Sample.runtime Sample.io req st).1 = accepted)
      as Hacc by (vm_compute; reflexivity).
    exact (proj1 (stored_timestamp Sample.runtime Sample.io req st _ Hjson)
             Hacc).
  - assert (json bad = Some (Sample.click (Some "garbage")))
      as Hjson by reflexivity.
    assert ("garbage" <> "") as Hne by discriminate.
    destruct (proj2 (stored_timestamp Sample.runtime Sample.io bad st _ Hjson)
                "garbage" eq_refl Hne eq_refl) as (Hnot & Hdb & Herr).
    split; [exact Hnot|]. split; [exact Hdb|].
    assert (method bad <> "OPTIONS") as Hm by (simpl; discriminate).
    assert (Sample.secret <> "") as Hkey by discriminate.
    assert ((checkRateLimit (now_limit Sample.io) (hashApiKey Sample.secret)
               (rateLimitMap st)).1 = true)
      as Hadmit by (vm_compute; reflexivity).
    assert (exists key,
               verify_api_key Sample.io (hashApiKey Sample.secret) (db st)
               = inr key) as [key Hv] by (vm_compute; eexists; reflexivity).
    exact (Herr Sample.secret key Hm eq_refl Hkey Hadmit Hv eq_refl eq_refl).
Defined.

(** C3, as stated, fails: an event whose timestamp does not parse is not
    stored with the server time; the request is answered with status 500 and
    the table of events stays empty. *)
Lemma unparseable_timestamp_is_not_stored :
  let st := {| rateLimitMap := ∅; db := Sample.registered |} in
  let req := Sample.post Sample.secret (Some "garbage") in
  Date_parse Sample.runtime "garbage" = None
  /\ (serve Sample.runtime Sample.io req st).1 = internal_error
  /\ analytics_events_table (db (serve Sample.runtime Sample.io req st).2) = []
  /\ (serve Sample.runtime Sample.io (Sample.post Sample.secret None) st).1
     = accepted.
Proof. vm_compute. auto. Qed.

(** ** The key checks *)

(** C5. When the store answers the lookup and exactly one key [r] carries
    the hash of the credential: an inactive key is rejected as revoked,
    whatever its expiry; an active key whose expiry lies strictly before the
    clock is rejected as expired; every other key passes, a key without
    expiry in particular, and the event of an accepted request is stored
    under the app of that key. *)
Theorem key_checks (io : IO) (keyHash : string) (store : Store)
    (r : api_keys.row) :
  select_ok io = true ->
  List.filter (fun r' => String.eqb (api_keys.key_hash r') keyHash)
    (api_keys_table store) = [r] ->
  (api_keys.is_active r = false ->
   verify_api_key io keyHash store = inl revoked_key)
  /\ (api_keys.is_active r = true ->
      forall e, api_keys.expires_at r = Some e -> e < now_expiry io ->
      verify_api_key io keyHash store = inl expired_key)
  /\ (api_keys.is_active r = true ->
      (forall e, api_keys.expires_at r = Some e -> now_expiry io <= e) ->
      verify_api_key io keyHash store = inr r)
  /\ (api_keys.expires_at r = None ->
      verify_api_key io keyHash store <> inl expired_key)
  /\ (forall rt req st st' apiKey,
         x_api_key req = Some apiKey -> hashApiKey apiKey = keyHash ->
         db st = store ->
         serve rt io req st = (accepted, st') ->
         exists row,
           analytics_events_table (db st')
           = analytics_events_table (db st) ++ [row]
           /\ analytics_events.app_id row = api_keys.app_id r).
Proof.
  intros Hsel Hrows.
  assert (verify_api_key io keyHash store
          = if negb (api_keys.is_active r) then inl revoked_key
            else if match api_keys.expires_at r with
                    | Some e => e <? now_expiry io
                    | None => false
                    end then inl expired_key
                 else inr r) as Hv.
  { unfold verify_api_key. by rewrite Hsel, Hrows. }
  repeat split.
  - intros Hact. by rewrite Hv, Hact.
  - intros Hact e He Hlt. rewrite Hv, Hact, He. simpl.
    by destruct (Z.ltb_spec e (now_expiry io)); [|lia].
  - intros Hact Hexp. rewrite Hv, Hact. simpl.
    destruct (api_keys.expires_at r) as [e|]; [|done].
    specialize (Hexp e eq_refl).
    by destruct (Z.ltb_spec e (now_expiry io)); [lia|].
  - intros Hnone. rewrite Hv, Hnone. by destruct (negb (api_keys.is_active r)).
  - intros rt req st st' apiKey Hk Hh Hdb Hs.
    apply serve_accepted in Hs
      as (k & m' & r' & e & ts & Hk' & _ & _ & Hver & _ & _ & _ & _ & _ & Htab).
    assert (k = apiKey) as -> by congruence.
    rewrite Hh, Hdb, Hv in Hver.
    exists (new_row r' req e ts). split; [done|]. simpl.
    destruct (negb (api_keys.is_active r)); [done|].
    destruct (match api_keys.expires_at r with Some _ => _ | None => _ end);
      congruence.
Qed.

(** ** Revocation *)

Lemma revoke_serve (io : auth_revoke.IO) (req : auth_revoke.Request)
    (store : Store) (user id : string) :
  auth_revoke.method req <> "OPTIONS" ->
  truthy (auth_revoke.authorization req) = true ->
  auth_revoke.getUser io = Some user ->
  auth_revoke.json req = Some {| auth_revoke.api_key_id := Some id |} ->
  id <> "" ->
  auth_revoke.update_ok io = true ->
  auth_revoke.serve io req store
  = (revoked_ack,
     api_keys_update (addressed id user)
       (auth_revoke.revoke (auth_revoke.now io)) store).
Proof.
  intros Hm Ha Hu Hj Hid Hok. unfold auth_revoke.serve.
  apply String.eqb_neq in Hm. rewrite Hm, Ha, Hu, Hj. simpl.
  apply String.eqb_neq in Hid. rewrite Hid, Hok. done.
Qed.

Lemma map_if_none {A} (p : A -> bool) (f : A -> A) (l : list A) :
  (forall x, x ∈ l -> p x = false) ->
  List.map (fun x => if p x then f x else x) l = l.
Proof.
  induction l as [|x l IH]; intros H; [done|]. simpl.
  rewrite (H x) by apply list_elem_of_here. f_equal. apply IH.
  intros y Hy. apply H. by apply list_elem_of_further.
Qed.

(** C4, as the handler has it.  A revocation by an authenticated caller is
    acknowledged whether or not a key of that identity is owned by the
    caller.  Each key of that identity owned by the caller becomes inactive
    with the clock as revocation time, its other columns unchanged; every
    other key, every app and every event stay as they were, so that with no
    matching key the store is unchanged. *)
Theorem revoke_acknowledged (io : auth_revoke.IO) (req : auth_revoke.Request)
    (store : Store) (user id : string) :
  auth_revoke.method req <> "OPTIONS" ->
  truthy (auth_revoke.authorization req) = true ->
  auth_revoke.getUser io = Some user ->
  auth_revoke.json req = Some {| auth_revoke.api_key_id := Some id |} ->
  id <> "" ->
  auth_revoke.update_ok io = true ->
  (auth_revoke.serve io req store).1 = revoked_ack
  /\ apps_table (auth_revoke.serve io req store).2 = apps_table store
  /\ analytics_events_table (auth_revoke.serve io req store).2
     = analytics_events_table store
  /\ (forall (i : nat) (r : api_keys.row),
         api_keys_table store !! i = Some r ->
         exists r',
           api_keys_table (auth_revoke.serve io req store).2 !! i = Some r'
           /\ if addressed id user r then
                api_keys.is_active r' = false
                /\ api_keys.revoked_at r' = Some (auth_revoke.now io)
                /\ r' = auth_revoke.revoke (auth_revoke.now io) r
              else r' = r)
  /\ ((forall r, r ∈ api_keys_table store -> addressed id user r = false) ->
      (auth_revoke.serve io req store).2 = store).
Proof.
  intros Hm Ha Hu Hj Hid Hok.
  rewrite (revoke_serve io req store user id Hm Ha Hu Hj Hid Hok). simpl.
  repeat split; try done.
  - intros i r Hi. rewrite list_lookup_fmap, Hi. simpl.
    eexists. split; [done|]. by destruct (addressed id user r).
  - intros Hnone. unfold api_keys_update.
    rewrite (map_if_none _ _ _ Hnone). by destruct store.
Qed.

(** The owner revokes the registered key: it becomes inactive, with the
    clock as revocation time. *)
Lemma revoke_acknowledged_witness :
  let after :=
    auth_revoke.serve (Sample.revoke_io Sample.owner) Sample.revoke_request
      Sample.registered in
  after.1 = revoked_ack
  /\ exists r',
       api_keys_table after.2 !! 0%nat = Some r'
       /\ api_keys.is_active r' = false
       /\ api_keys.revoked_at r' = Some 1708432500000.
Proof.
  intros after.
  assert (auth_revoke.method Sample.revoke_request <> "OPTIONS")
    as Hm by (simpl; discriminate).
  assert (Sample.key_id <> "") as Hid by discriminate.
  destruct (revoke_acknowledged (Sample.revoke_io Sample.owner)
              Sample.revoke_request Sample.registered Sample.owner
              Sample.key_id Hm eq_refl eq_refl eq_refl Hid eq_refl)
    as (Hack & _ & _ & Hkeys & _).
  split; [exact Hack|].
  destruct (api_keys_table Sample.registered !! 0%nat) as [r|] eqn:Hr;
    [|vm_compute in Hr; discriminate].
  destruct (Hkeys 0%nat r Hr) as (r' & Hr' & Hif).
  assert (addressed Sample.key_id Sample.owner r = true) as Haddr.
  { vm_compute in Hr. injection Hr as <-. vm_compute. reflexivity. }
  rewrite Haddr in Hif. destruct Hif as (Hact & Hrev & _).
  exists r'. split; [exact Hr'|]. split; [exact Hact | exact Hrev].
Defined.

(** C4, as stated, fails: a caller who owns no key of that identity (here
    the key exists and belongs to someone else) is not answered "not found":
    the revocation is acknowledged with status 200 and changes nothing. *)
Lemma revoke_without_owned_key_is_acknowledged :
  let after :=
    auth_revoke.serve (Sample.revoke_io Sample.intruder) Sample.revoke_request
      Sample.registered in
  forallb (fun r => negb (addressed Sample.key_id Sample.intruder r))
    (api_keys_table Sample.registered) = true
  /\ after.1 = respond 200 (Message "API key revoked successfully")
  /\ status after.1 <> 404
  /\ after.2 = Sample.registered.
Proof. vm_compute. repeat split; discriminate || reflexivity. Qed.

Lemma filter_map_has_hash h (g : api_keys.row -> api_keys.row) l :
  (forall r, api_keys.key_hash (g r) = api_keys.key_hash r) ->
  List.filter (has_hash h) (List.map g l)
  = List.map g (List.filter (has_hash h) l).
Proof.
  intros Hg. induction l as [|r l IH]; [done|].
  cbn [List.map List.filter]. rewrite IH.
  assert (has_hash h (g r) = has_hash h r) as ->
    by (unfold has_hash; by rewrite Hg).
  by destruct (has_hash h r).
Qed.

(** The keys after an ingestion: untouched, or some of them touched. *)
Lemma serve_keys (rt : Runtime) (io : IO) (req : Request) (st : State) :
  exists p : api_keys.row -> bool,
    api_keys_table (db (serve rt io req st).2)
    = List.map (fun r => if p r then touch (now_used io) r else r)
        (api_keys_table (db st)).
Proof.
  assert (exists p : api_keys.row -> bool,
             api_keys_table (db st)
             = List.map (fun r => if p r then touch (now_used io) r else r)
                 (api_keys_table (db st))) as Hid.
  { exists (fun _ => false). induction (api_keys_table (db st)); simpl; congruence. }
  unfold serve. destruct (String.eqb (method req) "OPTIONS"); [done|].
  destruct (negb (truthy (x_api_key req))); [done|].
  destruct (checkRateLimit _ _ _) as [[|] m']; simpl; [|done].
  destruct (verify_api_key _ _ _) as [rej|r]; [done|].
  destruct (json req) as [e|]; [|done].
  destruct (negb (truthy (event e)) || negb (truthy (url e))); [done|].
  destruct (event_timestamp rt io e) as [ts|]; [|done].
  destruct (negb (insert_ok io)); [done|]. simpl.
  destruct (update_ok io); simpl; [by eexists | done].
Qed.

(** The keys after a registration: as before, or with one more key whose
    hash is new. *)
Lemma register_keys (io : auth_register.IO) (req : auth_register.Request)
    (store : Store) :
  api_keys_table (auth_register.serve io req store).2 = api_keys_table store
  \/ exists key,
       api_keys_table (auth_register.serve io req store).2
       = api_keys_table store ++ [key]
       /\ forall r, r ∈ api_keys_table store ->
                    api_keys.key_hash r <> api_keys.key_hash key.
Proof.
  unfold auth_register.serve.
  destruct (String.eqb _ "OPTIONS"); [by left|].
  destruct (negb (truthy _)); [by left|].
  destruct (auth_register.getUser io) as [user|]; [|by left].
  destruct (auth_register.json req) as [body|]; [|by left].
  destruct (negb _ || negb _); [by left|].
  destruct (if auth_register.insert_app_ok io then _ else _) as [db1|] eqn:H1;
    [|by left].
  assert (api_keys_table db1 = api_keys_table store) as Hsame.
  { destruct (auth_register.insert_app_ok io); [|done].
    unfold apps_insert in H1. destruct (existsb _ _); [done|].
    by injection H1 as <-. }
  match goal with
  | |- context [api_keys_insert ?k db1] => set (key := k)
  end.
  destruct (if auth_register.insert_key_ok io then _ else _) as [db2|] eqn:H2;
    simpl; [|by left].
  right. exists key. destruct (auth_register.insert_key_ok io); [|done].
  unfold api_keys_insert in H2.
  destruct (existsb _ (api_keys_table db1)) eqn:Hex; [done|].
  injection H2 as <-. simpl. rewrite Hsame in *. split; [done|].
  intros r Hr Heq.
  assert (existsb
            (fun r' => String.eqb (api_keys.key_hash r') (api_keys.key_hash key)
                       || String.eqb (api_keys.id r') (api_keys.id key))
            (api_keys_table store) = true) as Hyes; [|congruence].
  apply existsb_exists. exists r. split; [by apply list_elem_of_In|].
  rewrite Heq, String.eqb_refl. done.
Qed.

(** A request to auth-revoke either is a revocation that the store carries
    out, or leaves the store as it was. *)
Lemma revoke_cases (io : auth_revoke.IO) (req : auth_revoke.Request)
    (store : Store) :
  (exists id user,
      revokes id user (Revoke io req)
      /\ auth_revoke.serve io req store
         = (revoked_ack,
            api_keys_update (addressed id user)
              (auth_revoke.revoke (auth_revoke.now io)) store))
  \/ ((forall id user, ~ revokes id user (Revoke io req))
      /\ (auth_revoke.serve io req store).2 = store).
Proof.
  unfold auth_revoke.serve.
  destruct (String.eqb_spec (auth_revoke.method req) "OPTIONS") as [Hm|Hm].
  { right. split; [|done].
    intros id user (io' & req' & [= <- <-] & ? & _). done. }
  destruct (truthy (auth_revoke.authorization req)) eqn:Ha; simpl;
    [|right; split; [|done];
      intros id user (io' & req' & [= <- <-] & _ & ? & _); congruence].
  destruct (auth_revoke.getUser io) as [user|] eqn:Hu;
    [|right; split; [|done];
      intros id user (io' & req' & [= <- <-] & _ & _ & ? & _); congruence].
  destruct (auth_revoke.json req) as [[key]|] eqn:Hj;
    [|right; split; [|done];
      intros id user' (io' & req' & [= <- <-] & _ & _ & _ & ? & _);
      congruence].
  simpl. destruct (truthy key) eqn:Hk; simpl.
  2:{ right. split; [|done].
      intros id user' (io' & req' & [= <- <-] & _ & _ & _ & Hj' & Hid & _).
      rewrite Hj in Hj'. injection Hj' as ->. simpl in Hk.
      apply String.eqb_neq in Hid. by rewrite Hid in Hk. }
  apply truthy_Some in Hk as (id & -> & Hid).
  destruct (auth_revoke.update_ok io) eqn:Hok; simpl;
    [|right; split; [|done];
      intros id' user' (io' & req' & [= <- <-] & _ & _ & _ & _ & _ & ?);
      congruence].
  left. exists id, user. split; [|done].
  exists io, req. repeat split; done.
Qed.

(** One request in the life of the key of hash [h]. *)
Lemma step_key (h : string) (w : State) (op : Op) (key : api_keys.row) :
  List.filter (has_hash h) (api_keys_table (db w)) = [key] ->
  exists key',
    List.filter (has_hash h) (api_keys_table (db (step w op))) = [key']
    /\ same_key key key'
    /\ (revokes (api_keys.id key) (api_keys.user_id key) op ->
        api_keys.is_active key' = false)
    /\ (~ revokes (api_keys.id key) (api_keys.user_id key) op ->
        api_keys.is_active key' = api_keys.is_active key)
    /\ (api_keys.is_active key = false -> api_keys.is_active key' = false).
Proof.
  intros Hkey. destruct op as [rt io req|io req|io req]; simpl.
  - destruct (serve_keys rt io req w) as [p ->].
    rewrite filter_map_has_hash, Hkey by (intros r; by destruct (p r)).
    eexists. split; [done|]. destruct (p key); simpl.
    all: repeat split; try done.
    all: by intros (? & ? & [=] & _).
  - destruct (register_keys io req (db w)) as [-> | (new & -> & Hnew)].
    + exists key. repeat split; try done. by intros (? & ? & [=] & _).
    + assert (key ∈ List.filter (has_hash h) (api_keys_table (db w)))
        as Hin by (rewrite Hkey; apply list_elem_of_here).
      apply list_elem_of_In, filter_In in Hin as [Hin Hh].
      apply list_elem_of_In in Hin. unfold has_hash in Hh.
      apply String.eqb_eq in Hh.
      rewrite List.filter_app, Hkey. simpl.
      assert (has_hash h new = false) as ->.
      { unfold has_hash. apply String.eqb_neq. intros Heq.
        apply (Hnew key Hin). congruence. }
      exists key. repeat split; try done. by intros (? & ? & [=] & _).
  - destruct (revoke_cases io req (db w))
      as [(id & user & Hrev & ->) | [Hnot ->]]; simpl.
    + rewrite filter_map_has_hash, Hkey
        by (intros r; by destruct (addressed id user r)).
      simpl. eexists. split; [done|].
      destruct (addressed id user key) eqn:Haddr.
      * repeat split; try done. intros Hnot. exfalso. apply Hnot.
        unfold addressed in Haddr. apply andb_true_iff in Haddr as [H1 H2].
        apply String.eqb_eq in H1, H2. by rewrite H1, H2.
      * repeat split; try done. intros Hrev'. exfalso.
        destruct Hrev as (io1 & req1 & [= <- <-] & _ & _ & Hu & Hj & _).
        destruct Hrev' as (io2 & req2 & [= <- <-] & _ & _ & Hu' & Hj' & _).
        assert (user = api_keys.user_id key) as -> by congruence.
        assert (id = api_keys.id key) as -> by congruence.
        unfold addressed in Haddr. by rewrite !String.eqb_refl in Haddr.
    + exists key. repeat split; try done. intros Hrev. by destruct (Hnot _ _ Hrev).
Qed.

(** Any sequence of requests in the life of the key of hash [h]. *)
Lemma run_key (h : string) (ops : list Op) (w : State) (key : api_keys.row) :
  List.filter (has_hash h) (api_keys_table (db w)) = [key] ->
  exists key',
    List.filter (has_hash h) (api_keys_table (db (run ops w))) = [key']
    /\ same_key key key'
    /\ (Exists (revokes (api_keys.id key) (api_keys.user_id key)) ops ->
        api_keys.is_active key' = false)
    /\ (Forall (fun op => ~ revokes (api_keys.id key) (api_keys.user_id key) op)
          ops ->
        api_keys.is_active key' = api_keys.is_active key)
    /\ (api_keys.is_active key = false -> api_keys.is_active key' = false).
Proof.
  revert w key. induction ops as [|op ops IH]; intros w key Hkey.
  { exists key. repeat split; try done. by intros ?%Exists_nil. }
  destruct (step_key h w op key Hkey)
    as (key1 & Hkey1 & Hsame1 & Hrev1 & Hnot1 & Hoff1).
  destruct (IH (step w op) key1 Hkey1)
    as (key' & Hkey' & Hsame' & Hrev' & Hnot' & Hoff').
  destruct Hsame1 as (Hid & Happ & Huser & Hhash & Hexp).
  rewrite Hid, Huser in Hrev', Hnot'.
  exists key'. split; [done|]. split.
  { destruct Hsame' as (? & ? & ? & ? & ?). repeat split; congruence. }
  split; [|split].
  - intros [Hop | Hops]%Exists_cons; auto.
  - intros [Hop Hops]%Forall_cons. rewrite Hnot' by done. auto.
  - auto.
Qed.

Lemma filter_none {A} (p : A -> bool) (l : list A) :
  (forall x, x ∈ l -> p x = false) -> List.filter p l = [].
Proof.
  induction l as [|x l IH]; intros H; [done|]. simpl.
  rewrite (H x) by apply list_elem_of_here. apply IH.
  intros y Hy. apply H. by apply list_elem_of_further.
Qed.

(** What a successful registration stored. *)
Lemma register_success (io : auth_register.IO) (req : auth_register.Request)
    (store store1 : Store) (id name domain : string)
    (description : option string) (secret : string) :
  auth_register.serve io req store
  = (respond 200 (Registered id name domain description secret), store1) ->
  exists owner key,
    auth_register.getUser io = Some owner
    /\ api_keys_table store1 = api_keys_table store ++ [key]
    /\ (forall r, r ∈ api_keys_table store ->
                  api_keys.key_hash r <> api_keys.key_hash key)
    /\ key = {| api_keys.id := auth_register.new_key_id io;
                api_keys.app_id := id;
                api_keys.user_id := owner;
                api_keys.key_hash := hashApiKey secret;
                api_keys.key_prefix := substring 0 12 secret;
                api_keys.is_active := true;
                api_keys.expires_at := None;
                api_keys.last_used_at := None;
                api_keys.revoked_at := None |}.
Proof.
  intros Hs. pose proof (register_keys io req store) as Hkeys.
  rewrite Hs in Hkeys. simpl in Hkeys. revert Hs Hkeys.
  unfold auth_register.serve.
  destruct (String.eqb _ "OPTIONS"); [done|].
  destruct (negb (truthy _)); [done|].
  destruct (auth_register.getUser io) as [owner|]; [|done].
  destruct (auth_register.json req) as [body|]; [|done].
  destruct (negb _ || negb _); [done|].
  destruct (if auth_register.insert_app_ok io then _ else _) as [db1|] eqn:H1;
    [|done].
  assert (api_keys_table db1 = api_keys_table store) as Hsame.
  { destruct (auth_register.insert_app_ok io); [|done].
    unfold apps_insert in H1. destruct (existsb _ _); [done|].
    by injection H1 as <-. }
  destruct (if auth_register.insert_key_ok io then _ else _) as [db2|] eqn:H2;
    [|done].
  intros [= <- <- <- <- <- <-] Hkeys.
  destruct (auth_register.insert_key_ok io); [|done].
  unfold api_keys_insert in H2. destruct (existsb _ _); [done|].
  injection H2 as <-. simpl in *. rewrite Hsame in *.
  eexists owner, _. split; [done|]. split; [done|]. split; [|done].
  destruct Hkeys as [Hk | (key & Hk & Hnew)].
  - exfalso. apply (f_equal length) in Hk. rewrite length_app in Hk.
    simpl in Hk. lia.
  - apply app_inj_tail in Hk as [_ <-]. exact Hnew.
Qed.

(** C8. The secret that a successful registration returns hashes, by
    [hashApiKey], to the hash stored with the new key, which is active and has
    no expiry.  Whatever requests follow (ingestions, registrations,
    revocations), as long as none of them is a revocation of that key by its
    owner, presenting the secret passes the key checks and yields the new
    app; once such a revocation has happened, presenting the secret is
    rejected as revoked. *)
Theorem secret_round_trip (rio : auth_register.IO) (rreq : auth_register.Request)
    (store store1 : Store) (id name domain : string)
    (description : option string) (secret owner : string) :
  auth_register.serve rio rreq store
  = (respond 200 (Registered id name domain description secret), store1) ->
  auth_register.getUser rio = Some owner ->
  exists key,
    api_keys_table store1 = api_keys_table store ++ [key]
    /\ api_keys.key_hash key = hashApiKey secret
    /\ api_keys.is_active key = true
    /\ api_keys.expires_at key = None
    /\ api_keys.id key = auth_register.new_key_id rio
    /\ api_keys.user_id key = owner
    /\ forall (limits : gmap string Window) (ops : list Op) (io : IO),
         select_ok io = true ->
         let w := run ops {| rateLimitMap := limits; db := store1 |} in
         (Forall (fun op => ~ revokes (auth_register.new_key_id rio) owner op)
            ops ->
          exists key',
            verify_api_key io (hashApiKey secret) (db w) = inr key'
            /\ api_keys.app_id key' = id)
         /\ (Exists (revokes (auth_register.new_key_id rio) owner) ops ->
             verify_api_key io (hashApiKey secret) (db w) = inl revoked_key).
Proof.
  intros Hs Howner.
  apply register_success in Hs as (owner' & key & Ho & Htab & Hnew & Hkey).
  assert (owner' = owner) as -> by congruence.
  assert (List.filter (has_hash (hashApiKey secret)) (api_keys_table store1)
          = [key]) as Hone.
  { rewrite Htab, List.filter_app.
    rewrite (filter_none (has_hash (hashApiKey secret)) (api_keys_table store)).
    - simpl. unfold has_hash. rewrite Hkey at 1. simpl.
      by rewrite String.eqb_refl.
    - intros r Hr. apply String.eqb_neq. intros Heq. apply (Hnew r Hr).
      rewrite Hkey. simpl. exact Heq. }
  exists key. split; [done|]. rewrite Hkey at 1 2 3 4 5. simpl.
  do 5 (split; [done|]). intros limits ops io Hsel.
  set (w := run ops {| rateLimitMap := limits; db := store1 |}).
  destruct (run_key (hashApiKey secret) ops
              {| rateLimitMap := limits; db := store1 |} key Hone)
    as (key' & Hkey' & (Hid & Happ & Huser & Hhash & Hexp) & Hrev & Hnot & _).
  fold w in Hkey'.
  assert (verify_api_key io (hashApiKey secret) (db w)
          = if negb (api_keys.is_active key') then inl revoked_key
            else inr key') as Hv.
  { unfold verify_api_key. rewrite Hsel.
    fold (has_hash (hashApiKey secret)). rewrite Hkey'. simpl.
    rewrite Hexp, Hkey. simpl. by destruct (api_keys.is_active key'). }
  rewrite Hkey in Hnot, Hrev, Happ. simpl in Hnot, Hrev, Happ. split.
  - intros Hall. exists key'. by rewrite Hv, (Hnot Hall).
  - intros Hex. by rewrite Hv, (Hrev Hex).
Qed.

(** The registered key passes an ingestion and is then revoked by its owner:
    its secret passes the key checks before the revocation and is rejected
    as revoked after it. *)
Lemma secret_round_trip_witness :
  let start := {| rateLimitMap := ∅; db := Sample.registered |} in
  let ingest := Collect Sample.runtime Sample.io
                  (Sample.post Sample.secret None) in
  let revocation := Revoke (Sample.revoke_io Sample.owner)
                      Sample.revoke_request in
  (exists key',
      verify_api_key Sample.io (hashApiKey Sample.secret)
        (db (run [ingest] start)) = inr key'
      /\ api_keys.app_id key' = "0b0e7a3c-5c1d-4d6e-9a57-1c2f3e4d5a6b")
  /\ verify_api_key Sample.io (hashApiKey Sample.secret)
       (db (run [ingest; revocation] start)) = inl revoked_key.
Proof.
  intros start ingest revocation.
  assert (auth_register.serve Sample.register_io Sample.register_request
            Sample.empty_store
          = (respond 200
               (Registered "0b0e7a3c-5c1d-4d6e-9a57-1c2f3e4d5a6b" "My Website"
                  "https://example.com" None Sample.secret),
             Sample.registered)) as Hs by (vm_compute; reflexivity).
  destruct (secret_round_trip _ _ _ _ _ _ _ _ _ Sample.owner Hs eq_refl)
    as (key & _ & _ & _ & _ & _ & _ & Hlife).
  split.
  - apply (Hlife ∅ [ingest] Sample.io eq_refl).
    constructor; [|constructor]. intros (io & req & Heq & _). discriminate Heq.
  - apply (Hlife ∅ [ingest; revocation] Sample.io eq_refl).
    right. left. exists (Sample.revoke_io Sample.owner), Sample.revoke_request.
    repeat split; try reflexivity; simpl; discriminate.
Defined.

(** The key checks on the registered key, before and after its owner revokes
    it, and on a copy of it that expired a millisecond before the clock. *)
Lemma key_checks_witness :
  let key :=
    {| api_keys.id := Sample.key_id;
       api_keys.app_id := "0b0e7a3c-5c1d-4d6e-9a57-1c2f3e4d5a6b";
       api_keys.user_id := Sample.owner;
       api_keys.key_hash := hashApiKey Sample.secret;
       api_keys.key_prefix := "ak_123e4567e";
       api_keys.is_active := true;
       api_keys.expires_at := None;
       api_keys.last_used_at := None;
       api_keys.revoked_at := None |} in
  let expired :=
    {| api_keys.id := Sample.key_id;
       api_keys.app_id := "0b0e7a3c-5c1d-4d6e-9a57-1c2f3e4d5a6b";
       api_keys.user_id := Sample.owner;
       api_keys.key_hash := hashApiKey Sample.secret;
       api_keys.key_prefix := "ak_123e4567e";
       api_keys.is_active := true;
       api_keys.expires_at := Some 1708432496000;
       api_keys.last_used_at := None;
       api_keys.revoked_at := None |} in
  let revoked :=
    (auth_revoke.serve (Sample.revoke_io Sample.owner) Sample.revoke_request
       Sample.registered).2 in
  verify_api_key Sample.io (hashApiKey Sample.secret) Sample.registered
  = inr key
  /\ verify_api_key Sample.io (hashApiKey Sample.secret) revoked
     = inl revoked_key
  /\ verify_api_key Sample.io (hashApiKey Sample.secret)
       {| apps_table := []; api_keys_table := [expired];
          analytics_events_table := [] |}
     = inl expired_key.
Proof.
  intros key expired revoked. split; [|split].
  - assert (List.filter
              (fun r' => String.eqb (api_keys.key_hash r')
                           (hashApiKey Sample.secret))
              (api_keys_table Sample.registered) = [key])
      as Hrows by (vm_compute; reflexivity).
    apply (key_checks Sample.io _ _ key eq_refl Hrows); [reflexivity|].
    intros e He. discriminate He.
  - assert (List.filter
              (fun r' => String.eqb (api_keys.key_hash r')
                           (hashApiKey Sample.secret))
              (api_keys_table revoked)
            = [auth_revoke.revoke 1708432500000 key])
      as Hrows by (vm_compute; reflexivity).
    apply (key_checks Sample.io _ _ _ eq_refl Hrows). reflexivity.
  - assert (List.filter
              (fun r' => String.eqb (api_keys.key_hash r')
                           (hashApiKey Sample.secret))
              (api_keys_table
                 {| apps_table := []; api_keys_table := [expired];
                    analytics_events_table := [] |}) = [expired])
      as Hrows by (vm_compute; reflexivity).
    apply (key_checks Sample.io _ _ expired eq_refl Hrows
             : _ /\ (_ -> forall e, _ -> _ -> _) /\ _)
      with (e := 1708432496000); [reflexivity | reflexivity |].
    simpl. lia.
Defined.

(** ** Summaries *)

(** C7. For an authenticated caller who names an event: when the request
    names an app and no app of that identity belongs to the caller (whether
    the app exists under another owner or not at all), the answer is the one
    "not found" response with status 404; when the request names no app and
    the caller owns none, the answer has status 200 and the summary with
    count 0, no unique user and an empty histogram. *)
Theorem summary_scoping (rt : Runtime) (io : analytics_event_summary.IO)
    (req : analytics_event_summary.Request) (store : Store)
    (user ev : string) :
  analytics_event_summary.method req <> "OPTIONS" ->
  truthy (analytics_event_summary.authorization req) = true ->
  analytics_event_summary.getUser io = Some user ->
  analytics_event_summary.event req = Some ev ->
  ev <> "" ->
  (forall appId,
      analytics_event_summary.app_id req = Some appId -> appId <> "" ->
      (forall a, a ∈ apps_table store -> apps.id a = appId ->
                 apps.user_id a <> user) ->
      analytics_event_summary.serve rt io req store = not_found)
  /\ (truthy (analytics_event_summary.app_id req) = false ->
      (forall a, a ∈ apps_table store -> apps.user_id a <> user) ->
      analytics_event_summary.serve rt io req store
      = respond 200 (Summary ev 0 0 ∅)).
Proof.
  intros Hm Ha Hu He Hev. apply String.eqb_neq in Hm, Hev. split.
  - intros appId Happ Hne Hnone. unfold analytics_event_summary.serve.
    rewrite Hm, Ha, Hu, He, Happ. simpl. rewrite Hev. simpl.
    apply String.eqb_neq in Hne. rewrite Hne. simpl.
    rewrite filter_none; [by destruct (analytics_event_summary.app_ok io)|].
    intros a Hin. apply andb_false_iff.
    destruct (String.eqb_spec (apps.id a) appId) as [Hid|]; [|by left].
    right. apply String.eqb_neq. by apply Hnone.
  - intros Happ Hnone. unfold analytics_event_summary.serve.
    rewrite Hm, Ha, Hu, He, Happ. simpl. rewrite Hev. simpl.
    rewrite filter_none; [by destruct (analytics_event_summary.apps_ok io)|].
    intros a Hin. apply String.eqb_neq. by apply Hnone.
Qed.

(** Someone who owns no app asks for the summary of the registered app, which
    exists under another owner, and then for the summary of all their apps. *)
Lemma summary_scoping_witness :
  analytics_event_summary.serve Sample.runtime
    (Sample.summary_io Sample.intruder)
    (Sample.summary_request (Some Sample.app_id)) Sample.registered
  = not_found
  /\ analytics_event_summary.serve Sample.runtime
       (Sample.summary_io Sample.intruder)
       (Sample.summary_request None) Sample.registered
     = respond 200 (Summary "click" 0 0 ∅).
Proof.
  assert (forall a, a ∈ apps_table Sample.registered ->
                    apps.user_id a <> Sample.intruder) as Hnone.
  { intros a Ha. vm_compute in Ha. apply list_elem_of_In in Ha.
    destruct Ha as [<- | []]. simpl. discriminate. }
  assert ("GET" <> "OPTIONS") as Hm by discriminate.
  assert ("click" <> "") as Hev by discriminate.
  assert (Sample.app_id <> "") as Happ by discriminate.
  split.
  - apply (proj1 (summary_scoping Sample.runtime
                    (Sample.summary_io Sample.intruder)
                    (Sample.summary_request (Some Sample.app_id))
                    Sample.registered Sample.intruder "click"
                    Hm eq_refl eq_refl eq_refl Hev) Sample.app_id eq_refl Happ).
    intros a Ha _. by apply Hnone.
  - exact (proj2 (summary_scoping Sample.runtime
                    (Sample.summary_io Sample.intruder)
                    (Sample.summary_request None)
                    Sample.registered Sample.intruder "click"
                    Hm eq_refl eq_refl eq_refl Hev) eq_refl Hnone).
Defined.

Lemma or_null_Some (v : option string) (s : string) :
  or_null v = Some s <-> v = Some s /\ s <> "".
Proof.
  unfold or_null. destruct v as [s'|]; simpl; [|by split; [|intros []]].
  destruct (String.eqb_spec s' ""); simpl.
  - split; [done|]. intros [[= ->] ?]. done.
  - split; [intros [= ->] | intros [[= ->] _]]; done.
Qed.

Lemma elem_of_uniqueIps (events : list analytics_events.row) (ip : string) :
  ip ∈ analytics_event_summary.uniqueIps events
  <-> ip <> "" /\ exists e, e ∈ events /\ analytics_events.ip_address e = Some ip.
Proof.
  unfold analytics_event_summary.uniqueIps.
  rewrite elem_of_list_to_set, list_elem_of_omap. split.
  - intros (v & Hv & [Hs Hne]%or_null_Some).
    apply list_elem_of_In, in_map_iff in Hv as (e & <- & He).
    split; [done|]. exists e. split; [by apply list_elem_of_In | done].
  - intros (Hne & e & He & Hip). exists (Some ip). split.
    + apply list_elem_of_In, in_map_iff. exists e.
      split; [done | by apply list_elem_of_In].
    + by apply or_null_Some.
Qed.

Lemma inherited_false (rt : Runtime) (d : string) :
  inherited rt d = false ->
  assoc d Object_prototype_functions = None
  /\ String.eqb d "__proto__" && proto_accessor rt = false.
Proof.
  unfold inherited. by destruct (assoc d Object_prototype_functions).
Qed.

(** A turn on another device leaves the entry of [d] alone. *)
Lemma tally_other (rt : Runtime) (o : JsObject) (e : analytics_events.row)
    (d : string) :
  d <> "" -> analytics_events.device e <> Some d ->
  analytics_event_summary.tally rt o e !! d = o !! d.
Proof.
  intros Hd Hne. unfold analytics_event_summary.tally.
  destruct (truthy (analytics_events.device e)) eqn:Ht; [|done].
  apply truthy_Some in Ht as (d' & Hd' & _). rewrite Hd'. simpl.
  unfold js_set. destruct (String.eqb d' "__proto__" && proto_accessor rt);
    [done|].
  apply lookup_insert_ne. congruence.
Qed.

(** A turn on [d] itself counts one more. *)
Lemma tally_same (rt : Runtime) (o : JsObject) (e : analytics_events.row)
    (d : string) (n : Z) :
  d <> "" -> inherited rt d = false ->
  analytics_events.device e = Some d ->
  o !! d = None /\ n = 0 \/ o !! d = Some (JsNumber n) ->
  analytics_event_summary.tally rt o e !! d = Some (JsNumber (n + 1)).
Proof.
  intros Hd [Hassoc Hproto]%inherited_false He Ho. unfold analytics_event_summary.tally.
  rewrite He. simpl. apply String.eqb_neq in Hd. rewrite Hd. simpl.
  unfold js_set, js_get. rewrite Hproto, lookup_insert_eq.
  destruct Ho as [[-> ->] | ->]; [by rewrite Hassoc | done].
Qed.

Lemma deviceData_fold (rt : Runtime) (d : string)
    (events : list analytics_events.row) (o : JsObject) (n : Z) :
  d <> "" -> inherited rt d = false ->
  o !! d = None /\ n = 0 \/ o !! d = Some (JsNumber n) ->
  fold_left (analytics_event_summary.tally rt) events o !! d
  = match occurrences d events with
    | O => o !! d
    | S k => Some (JsNumber (n + Z.of_nat (S k)))
    end.
Proof.
  intros Hd Hinh. revert o n. unfold occurrences.
  induction events as [|e events IH]; intros o n Ho; [done|].
  cbn [fold_left List.filter]. case_bool_decide as He.
  - pose proof (tally_same rt o e d n Hd Hinh He Ho) as Hstep.
    rewrite (IH (analytics_event_summary.tally rt o e) (n + 1)) by (by right). simpl.
    destruct (length _); [by rewrite Hstep | f_equal; f_equal; lia].
  - pose proof (tally_other rt o e d Hd He) as Hstep.
    rewrite (IH (analytics_event_summary.tally rt o e) n) by (by rewrite Hstep). by rewrite Hstep.
Qed.

Lemma deviceData_empty_key (rt : Runtime) (events : list analytics_events.row)
    (o : JsObject) :
  o !! "" = None -> fold_left (analytics_event_summary.tally rt) events o !! "" = None.
Proof.
  revert o. induction events as [|e events IH]; intros o Ho; [done|].
  simpl. apply IH. unfold analytics_event_summary.tally.
  destruct (truthy (analytics_events.device e)) eqn:Ht; [|done].
  apply truthy_Some in Ht as (d' & -> & Hne). simpl.
  unfold js_set. destruct (String.eqb d' "__proto__" && proto_accessor rt);
    [done|].
  rewrite lookup_insert_ne; done.
Qed.

(** C6, as the code has it.  [count] is the number of events.  [uniqueUsers]
    is the number of distinct IP addresses among them that are neither null
    nor empty.  [deviceData] has no entry for the empty string, and for a
    device name that is not empty and is not a property that plain objects
    inherit, its entry is the number of events that report that device (no
    entry when there is none); events without such a device still count in
    [count]. *)
Theorem summary_statistics (rt : Runtime)
    (events : list analytics_events.row) :
  analytics_event_summary.count events = length events
  /\ (exists ips : list string,
         NoDup ips
         /\ (forall ip, ip ∈ ips
                        <-> ip <> ""
                            /\ exists e, e ∈ events
                                 /\ analytics_events.ip_address e = Some ip)
         /\ analytics_event_summary.uniqueUsers events = length ips)
  /\ analytics_event_summary.deviceData rt events !! "" = None
  /\ (forall d, d <> "" -> inherited rt d = false ->
      analytics_event_summary.deviceData rt events !! d
      = match occurrences d events with
        | O => None
        | S k => Some (JsNumber (Z.of_nat (S k)))
        end).
Proof.
  split; [done|]. split; [|split].
  - exists (elements (analytics_event_summary.uniqueIps events)).
    split; [apply NoDup_elements|]. split; [|done].
    intros ip. rewrite elem_of_elements. apply elem_of_uniqueIps.
  - by apply (deviceData_empty_key rt events ∅).
  - intros d Hd Hinh.
    assert ((∅ : JsObject) !! d = None) as Hempty by apply lookup_empty.
    pose proof (deviceData_fold rt d events ∅ 0 Hd Hinh
                  (or_introl (conj Hempty eq_refl))) as Hfold.
    rewrite Hempty in Hfold. exact Hfold.
Qed.

(** The scenario of the documentation: three clicks from two addresses, two
    on a mobile and one on a desktop. *)
Lemma summary_statistics_witness :
  let click device ip :=
    {| analytics_events.app_id := Sample.app_id;
       analytics_events.event := "click";
       analytics_events.url := "https://example.com/page";
       analytics_events.referrer := None;
       analytics_events.device := Some device;
       analytics_events.ip_address := Some ip;
       analytics_events.user_agent := None;
       analytics_events.browser := None;
       analytics_events.os := None;
       analytics_events.screen_size := None;
       analytics_events.metadata := None;
       analytics_events.timestamp := 1708432496000 |} in
  let events := [click "mobile" "1.1.1.1"; click "mobile" "1.1.1.1";
                 click "desktop" "2.2.2.2"] in
  analytics_event_summary.count events = 3%nat
  /\ analytics_event_summary.deviceData Sample.runtime events !! "mobile"
     = Some (JsNumber 2)
  /\ analytics_event_summary.deviceData Sample.runtime events !! "desktop"
     = Some (JsNumber 1)
  /\ analytics_event_summary.deviceData Sample.runtime events !! "tablet"
     = None.
Proof.
  intros click events.
  destruct (summary_statistics Sample.runtime events)
    as (Hcount & _ & _ & Hdevices).
  split; [exact Hcount|]. split; [|split].
  - apply (Hdevices "mobile"); [discriminate | reflexivity].
  - apply (Hdevices "desktop"); [discriminate | reflexivity].
  - apply (Hdevices "tablet"); [discriminate | reflexivity].
Defined.

(** C6, as stated, fails on stored values that are empty strings: an event
    whose IP address and device are the empty string has one distinct
    non-null IP address and a non-null device, yet the code counts no unique
    user and gives the histogram no entry. *)
Lemma empty_strings_are_not_counted :
  let e :=
    {| analytics_events.app_id := Sample.app_id;
       analytics_events.event := "click";
       analytics_events.url := "https://example.com/page";
       analytics_events.referrer := None;
       analytics_events.device := Some "";
       analytics_events.ip_address := Some "";
       analytics_events.user_agent := None;
       analytics_events.browser := None;
       analytics_events.os := None;
       analytics_events.screen_size := None;
       analytics_events.metadata := None;
       analytics_events.timestamp := 1708432496000 |} in
  distinct_non_null_ips [e] = 1%nat
  /\ analytics_event_summary.uniqueUsers [e] = 0%nat
  /\ occurrences "" [e] = 1%nat
  /\ analytics_event_summary.deviceData Sample.runtime [e] = ∅.
Proof. vm_compute. auto. Qed.

(** The scenario of the specification, from registration to summary. *)
Example scenario_three_clicks :
  analytics_event_summary.serve Sample.runtime
    (Sample.summary_io Sample.owner) (Sample.summary_request None)
    (db Sample.three_clicks)
  = respond 200
      (Summary "click" 3 2
         {[ "mobile" := JsNumber 2; "desktop" := JsNumber 1 ]}).
Proof. vm_compute. reflexivity. Qed.

(** A device named like a property that plain objects inherit is not
    counted: its entry becomes a string. *)
Example inherited_device_name :
  let e :=
    {| analytics_events.app_id := Sample.app_id;
       analytics_events.event := "click";
       analytics_events.url := "https://example.com/page";
       analytics_events.referrer := None;
       analytics_events.device := Some "constructor";
       analytics_events.ip_address := None;
       analytics_events.user_agent := None;
       analytics_events.browser := None;
       analytics_events.os := None;
       analytics_events.screen_size := None;
       analytics_events.metadata := None;
       analytics_events.timestamp := 1708432496000 |} in
  analytics_event_summary.deviceData Sample.runtime [e; e] !! "constructor"
  = Some (JsString "function Object() { [native code] }11").
Proof. vm_compute. reflexivity. Qed.

(** ** Empty strings in the payload *)

Lemma uniqueIps_without (pre post : list analytics_events.row)
    (row : analytics_events.row) :
  analytics_events.ip_address row = None ->
  analytics_event_summary.uniqueIps (pre ++ row :: post)
  = analytics_event_summary.uniqueIps (pre ++ post).
Proof.
  intros Hip. unfold analytics_event_summary.uniqueIps.
  rewrite !List.map_app. simpl. rewrite Hip.
  change (List.map analytics_events.ip_address pre
          ++ None :: List.map analytics_events.ip_address post)
    with (List.map analytics_events.ip_address pre
          ++ [None] ++ List.map analytics_events.ip_address post).
  by rewrite !omap_app.
Qed.

Lemma deviceData_without (rt : Runtime) (pre post : list analytics_events.row)
    (row : analytics_events.row) :
  analytics_events.device row = None ->
  analytics_event_summary.deviceData rt (pre ++ row :: post)
  = analytics_event_summary.deviceData rt (pre ++ post).
Proof.
  intros Hd. unfold analytics_event_summary.deviceData.
  rewrite !fold_left_app. simpl. unfold analytics_event_summary.tally at 2.
  by rewrite Hd.
Qed.

(** C10. An accepted request appends one event whose referrer, device and IP
    address are null wherever the payload carried the empty string.  An event
    submitted with an empty IP address adds nothing to [uniqueUsers], one
    submitted with an empty device adds nothing to [deviceData], wherever the
    event stands among the events of a later summary; it counts for one in
    [count]. *)
Theorem empty_strings_stored_as_null (rt : Runtime) (io : IO) (req : Request)
    (st st' : State) :
  serve rt io req st = (accepted, st') ->
  exists eventData row,
    json req = Some eventData
    /\ analytics_events_table (db st')
       = analytics_events_table (db st) ++ [row]
    /\ (referrer eventData = Some "" -> analytics_events.referrer row = None)
    /\ (device eventData = Some "" ->
        analytics_events.device row = None
        /\ forall rt' pre post,
             analytics_event_summary.deviceData rt' (pre ++ row :: post)
             = analytics_event_summary.deviceData rt' (pre ++ post))
    /\ (ipAddress eventData = Some "" ->
        analytics_events.ip_address row = None
        /\ forall pre post,
             analytics_event_summary.uniqueUsers (pre ++ row :: post)
             = analytics_event_summary.uniqueUsers (pre ++ post))
    /\ (forall pre post,
           analytics_event_summary.count (pre ++ row :: post)
           = S (analytics_event_summary.count (pre ++ post))).
Proof.
  intros Hs. apply serve_accepted in Hs
    as (k & m' & r & e & ts & _ & _ & _ & _ & He & _ & _ & _ & _ & Htab).
  exists e, (new_row r req e ts). split; [done|]. split; [done|].
  split; [|split; [|split]].
  - intros H. simpl. by rewrite H.
  - intros H. assert (analytics_events.device (new_row r req e ts) = None)
      as Hnone by (simpl; by rewrite H).
    split; [done|]. intros rt' pre post. by apply deviceData_without.
  - intros H. assert (analytics_events.ip_address (new_row r req e ts) = None)
      as Hnone by (simpl; by rewrite H).
    split; [done|]. intros pre post. unfold analytics_event_summary.uniqueUsers.
    by rewrite uniqueIps_without.
  - intros pre post. unfold analytics_event_summary.count.
    rewrite !length_app. simpl. lia.
Qed.

(** The registered key posts a click whose referrer, device and IP address
    are empty strings. *)
Lemma empty_strings_stored_as_null_witness :
  let st := {| rateLimitMap := ∅; db := Sample.registered |} in
  let payload :=
    {| event := Some "click";
       url := Some "https://example.com/page";
       referrer := Some "";
       device := Some "";
       ipAddress := Some "";
       timestamp := None;
       metadata := None |} in
  let req :=
    {| method := "POST";
       x_api_key := Some Sample.secret;
       user_agent := None;
       json := Some payload |} in
  exists row,
    analytics_events_table (db (serve Sample.runtime Sample.io req st).2)
    = [row]
    /\ analytics_events.referrer row = None
    /\ analytics_events.device row = None
    /\ analytics_events.ip_address row = None
    /\ analytics_event_summary.uniqueUsers [row] = 0%nat
    /\ analytics_event_summary.deviceData Sample.runtime [row] = ∅
    /\ analytics_event_summary.count [row] = 1%nat.
Proof.
  intros st payload req.
  assert (serve Sample.runtime Sample.io req st
          = (accepted, (serve Sample.runtime Sample.io req st).2)) as Hs.
  { rewrite (surjective_pairing (serve Sample.runtime Sample.io req st)) at 1.
    f_equal. }
  destruct (empty_strings_stored_as_null _ _ _ _ _ Hs)
    as (e & row & Hjson & Htab & Href & Hdev & Hip & Hcount).
  assert (e = payload) as -> by (simpl in Hjson; congruence).
  destruct (Hdev eq_refl) as [Hd Hdd]. destruct (Hip eq_refl) as [Hi Huu].
  exists row. split; [exact Htab|]. split; [exact (Href eq_refl)|].
  split; [exact Hd|]. split; [exact Hi|].
  split; [exact (Huu [] [])|]. split; [exact (Hdd Sample.runtime [] [])|].
  exact (Hcount [] []).
Defined.
